(** * EBS CSI driver: block-device manager and attach/detach orchestration

    A shallow embedding of
      - package [devicemanager] (the mutex-guarded registry of in-progress
        attachments, [BlockDevice], [NewBlockDevice], [GetBlockDevice],
        [release], [getDevicesInUse], [getPath]), and
      - package [cloud] ([Cloud.AttachDisk], [Cloud.DetachDisk]),
    followed by the properties established about them.

    Conventions of the embedding.
      - Go strings are byte strings: [string].
      - Go maps are finite maps ([gmap]); [m[k] = v] is [<[k:=v]> m],
        [delete(m, k)] is [delete k m], reading a nil map behaves like
        reading an empty one.
      - [for k, v := range m] visits the entries of [m] in an order the
        language leaves unspecified.  Every function that ranges over a map
        takes the order as an argument [o : RangeOrder]; the theorems hold
        for every valid order, and two calls may use two different orders.
      - The registry is mutated in place under [d.mux]; the embedding passes
        the registry state in and out explicitly, one call at a time, which
        is the serialisation the mutex enforces.
      - [error] values are kept structured: one constructor per
        [fmt.Errorf] site, and [errOpaque] for an error that comes from a
        collaborator (the EC2 client); [Error] renders the message.
      - Code of the repository that is not among the sources (the device
        allocator, the device manager held by [Cloud]) enters as an
        interface; where a statement needs its behaviour, an implementation
        modelled from the specification is supplied and marked as such. *)

From Stdlib Require Import String Ascii List.
From stdpp Require Import base gmap strings list fin_maps.

Open Scope string_scope.

(** ** Errors *)

Inductive error : Type :=
| errNilInstance
| errDevicesInUse (nodeID : string)
| errTooManyVolumes (nodeID : string)
| errNotInProgress (volumeID : string)
| errDifferentVolume (path volumeID existingVolumeID : string)
| errOpaque (msg : string)
| errAttach (volumeID nodeID : string) (cause : error)
| errDetach (volumeID nodeID : string) (cause : error).

(** [Error q e] is [e.Error()], the message of [e]; [q] is the quoting that
    the verb [%q] applies to a string ([strconv.Quote]).  The verb [%s]
    inserts its argument unchanged and [%v] on an error inserts its
    message. *)
Fixpoint Error (q : string -> string) (e : error) : string :=
  match e with
  | errNilInstance => "can't get ID from a nil instance"
  | errDevicesInUse nodeID =>
      "could not get devices used in instance " ++ q nodeID
  | errTooManyVolumes nodeID =>
      "too many EBS volumes attached to node " ++ nodeID
  | errNotInProgress volumeID =>
      "release called for disk " ++ q volumeID ++ " when attach not in progress"
  | errDifferentVolume path volumeID existingVolumeID =>
      "release on device " ++ q path ++ " assigned to different volume: "
        ++ q volumeID ++ " vs " ++ q existingVolumeID
  | errOpaque msg => msg
  | errAttach volumeID nodeID cause =>
      "could not attach volume " ++ q volumeID ++ " to node " ++ q nodeID
        ++ ": " ++ Error q cause
  | errDetach volumeID nodeID cause =>
      "could not detach volume " ++ q volumeID ++ " from node " ++ q nodeID
        ++ ": " ++ Error q cause
  end.

(** A Go result pair [(T, error)]. *)
Inductive result (T : Type) : Type :=
| Ok (t : T)
| Err (e : error).
Arguments Ok {T} t.
Arguments Err {T} e.

(** ** Strings and map iteration *)

(** [strings.HasPrefix(s, prefix)]. *)
Fixpoint HasPrefix (s prefix : string) {struct prefix} : bool :=
  match prefix, s with
  | EmptyString, _ => true
  | String _ _, EmptyString => false
  | String c prefix', String c' s' =>
      if Ascii.eqb c c' then HasPrefix s' prefix' else false
  end.

(** [s[n:]]; the source only slices after [HasPrefix] has succeeded, so the
    index is always within bounds. *)
Fixpoint sliceFrom (n : nat) (s : string) : string :=
  match n, s with
  | O, _ => s
  | S n', String _ s' => sliceFrom n' s'
  | S _, EmptyString => EmptyString
  end.

(** The order in which one [range] loop visits a map. *)
Definition RangeOrder : Type := gmap string string -> list (string * string).

Definition valid_order (o : RangeOrder) : Prop :=
  forall m, o m ≡ₚ map_to_list m.

(** ** The EC2 data the device manager reads *)

Module ec2.

(** [ec2.InstanceBlockDeviceMapping], reduced to the two fields read:
    [DeviceName] and [Ebs.VolumeId], both through [aws.StringValue]
    (a nil pointer reads as the empty string).  [Ebs] itself is taken to
    be present, as it is in every mapping EC2 describes. *)
Record InstanceBlockDeviceMapping : Type := {
  DeviceName : string;
  VolumeId : string
}.

(** [ec2.Instance], reduced to [InstanceId] and [BlockDeviceMappings]. *)
Record Instance : Type := {
  InstanceId : string;
  BlockDeviceMappings : list InstanceBlockDeviceMapping
}.

End ec2.

(** ** Package devicemanager *)

Module devicemanager.

Definition devicePreffix : string := "/dev/xvd".

(** [BlockDevice].  [releaseFunc] is not a field of the embedding: both
    constructors of the package ([newBlockDevice], [GetBlockDevice]) bind
    it to [d.release(device)] on the device itself, so calling it is
    calling [release] on the current contents of the device. *)
Record BlockDevice : Type := {
  Instance : option ec2.Instance;
  Path : string;
  VolumeID : string;
  IsAlreadyAssigned : bool;
  isTainted : bool
}.

(** The interface [DeviceAllocator], as [NewBlockDevice] uses it.  The
    allocator is a reference: [Deprioritize] updates it in place, which the
    embedding writes as a new allocator value stored back under the node.
    [GetNext] returns [None] for its error result; the error value is only
    logged by the caller. *)
Class DeviceAllocator (A : Type) : Type := {
  NewDeviceAllocator : A;
  GetNext : A -> gmap string string -> option string;
  Deprioritize : A -> string -> A
}.

(** Modelled from the spec: the allocator behind [DeviceAllocator]
    ([NewDeviceAllocator], [GetNext], [Deprioritize]) is not among the
    sources.  The allocator state is an ordered preference list of
    suffixes; [GetNext] returns the first suffix of that order that is not
    a key of the in-use map and fails once every suffix is a key;
    [Deprioritize] moves a suffix to the back of the order.  The pool of
    suffixes, in its initial preference order, is a parameter. *)
Definition listGetNext (l : list string) (inUse : gmap string string)
  : option string :=
  find (fun s => bool_decide (inUse !! s = None)) l.

Definition listDeprioritize (l : list string) (chosen : string)
  : list string :=
  if bool_decide (chosen ∈ l)
  then filter (fun s => s ≠ chosen) l ++ [chosen]
  else l.

Definition listAllocator (pool : list string)
  : DeviceAllocator (list string) := {|
  NewDeviceAllocator := pool;
  GetNext := listGetNext;
  Deprioritize := listDeprioritize
|}.

Section manager.
Context {A : Type} `{DeviceAllocator A}.

(** [blockDeviceManager], without its mutex. *)
Record blockDeviceManager : Type := {
  deviceAllocators : gmap string A;
  attaching : gmap string (gmap string string)
}.

Definition NewBlockDeviceManager : blockDeviceManager := {|
  deviceAllocators := ∅;
  attaching := ∅
|}.

Definition getInstanceID (instance : option ec2.Instance)
  : result string :=
  match instance with
  | None => Err errNilInstance
  | Some i => Ok (ec2.InstanceId i)
  end.

Definition newBlockDevice (instance : option ec2.Instance)
    (volumeID path : string) (isAlreadyAssigned : bool) : BlockDevice := {|
  Instance := instance;
  Path := path;
  VolumeID := volumeID;
  IsAlreadyAssigned := isAlreadyAssigned;
  isTainted := false
|}.

(** The body of the first loop of [getDevicesInUse]: the two prefix
    tests run one after the other on the same variable. *)
Definition deviceSuffix (name : string) : string :=
  let name := if HasPrefix name "/dev/sd" then sliceFrom 7 name else name in
  let name := if HasPrefix name "/dev/xvd" then sliceFrom 8 name else name in
  name.

(** [d.attaching[nodeID]], a nil map reading as empty. *)
Definition attachingOf (d : blockDeviceManager) (nodeID : string)
  : gmap string string :=
  default ∅ (attaching d !! nodeID).

Definition getDevicesInUse (o : RangeOrder) (d : blockDeviceManager)
    (instance : ec2.Instance) (nodeID : string)
  : result (gmap string string) :=
  let deviceMappings :=
    foldl (fun m blockDevice =>
             <[deviceSuffix (ec2.DeviceName blockDevice)
               := ec2.VolumeId blockDevice]> m)
          ∅ (ec2.BlockDeviceMappings instance) in
  let deviceMappings :=
    foldl (fun m '(device, volume) => <[device := volume]> m)
          deviceMappings (o (attachingOf d nodeID)) in
  Ok deviceMappings.

Definition getPath (o : RangeOrder) (deviceMappings : gmap string string)
    (volumeID : string) : string :=
  match find (fun '(_, mappingVolumeID) =>
                bool_decide (volumeID = mappingVolumeID))
             (o deviceMappings) with
  | Some (devicePath, _) => devicePath
  | None => ""
  end.

Definition NewBlockDevice (o : RangeOrder) (d : blockDeviceManager)
    (instance : option ec2.Instance) (volumeID : string)
  : blockDeviceManager * result BlockDevice :=
  match getInstanceID instance, instance with
  | Err err, _ => (d, Err err)
  | Ok _, None => (d, Err errNilInstance)
  | Ok nodeID, Some inst =>
    match getDevicesInUse o d inst nodeID with
    | Err _ => (d, Err (errDevicesInUse nodeID))
    | Ok deviceMappings =>
      let path := getPath o deviceMappings volumeID in
      if bool_decide (path ≠ "") then
        (d, Ok (newBlockDevice instance volumeID path true))
      else
        let '(deviceAllocator, allocators) :=
          match deviceAllocators d !! nodeID with
          | Some a => (a, deviceAllocators d)
          | None => (NewDeviceAllocator,
                     <[nodeID := NewDeviceAllocator]> (deviceAllocators d))
          end in
        match GetNext deviceAllocator deviceMappings with
        | None =>
            ({| deviceAllocators := allocators;
                attaching := attaching d |},
             Err (errTooManyVolumes nodeID))
        | Some suffix =>
            let path := devicePreffix ++ suffix in
            ({| deviceAllocators :=
                  <[nodeID := Deprioritize deviceAllocator suffix]>
                    allocators;
                attaching :=
                  <[nodeID := <[path := volumeID]> (attachingOf d nodeID)]>
                    (attaching d) |},
             Ok (newBlockDevice instance volumeID path false))
        end
    end
  end.

(** [GetBlockDevice] reads the registry and leaves it as it is. *)
Definition GetBlockDevice (o : RangeOrder) (d : blockDeviceManager)
    (instance : option ec2.Instance) (volumeID : string)
  : result BlockDevice :=
  match getInstanceID instance, instance with
  | Err err, _ => Err err
  | Ok _, None => Err errNilInstance
  | Ok nodeID, Some inst =>
    match getDevicesInUse o d inst nodeID with
    | Err _ => Err (errDevicesInUse nodeID)
    | Ok inUse =>
      let path := getPath o inUse volumeID in
      let device := newBlockDevice instance volumeID path false in
      if bool_decide (path ≠ "") then
        Ok {| Instance := Instance device;
              Path := Path device;
              VolumeID := VolumeID device;
              IsAlreadyAssigned := true;
              isTainted := isTainted device |}
      else Ok device
    end
  end.

(** [release]: the returned option is the Go error, [None] for nil. *)
Definition release (d : blockDeviceManager) (device : BlockDevice)
  : blockDeviceManager * option error :=
  match getInstanceID (Instance device) with
  | Err err => (d, Some err)
  | Ok nodeID =>
    match attachingOf d nodeID !! Path device with
    | None => (d, Some (errNotInProgress (VolumeID device)))
    | Some existingVolumeID =>
      if bool_decide (VolumeID device ≠ existingVolumeID) then
        (d, Some (errDifferentVolume (Path device) (VolumeID device)
                                     existingVolumeID))
      else
        ({| deviceAllocators := deviceAllocators d;
            attaching :=
              <[nodeID := delete (Path device) (attachingOf d nodeID)]>
                (attaching d) |},
         None)
    end
  end.

(** [BlockDevice.Release]: the error of [releaseFunc] is only logged. *)
Definition Release (d : blockDeviceManager) (device : BlockDevice)
    (force : bool) : blockDeviceManager :=
  if negb (isTainted device) || force then fst (release d device) else d.

Definition Taint (device : BlockDevice) : BlockDevice := {|
  Instance := Instance device;
  Path := Path device;
  VolumeID := VolumeID device;
  IsAlreadyAssigned := IsAlreadyAssigned device;
  isTainted := true
|}.

(** *** Notions used in the statements *)

(** The confirmed view: what the first loop of [getDevicesInUse] builds from
    the block device mappings EC2 reports for the instance. *)
Definition assignMapping (m : gmap string string)
    (blockDevice : ec2.InstanceBlockDeviceMapping) : gmap string string :=
  <[deviceSuffix (ec2.DeviceName blockDevice) := ec2.VolumeId blockDevice]> m.

Definition confirmedMappings (instance : ec2.Instance) : gmap string string :=
  foldl assignMapping ∅ (ec2.BlockDeviceMappings instance).

(** The merged view of a node: in-flight entries over confirmed ones. *)
Definition mergedView (d : blockDeviceManager) (instance : ec2.Instance)
  : gmap string string :=
  attachingOf d (ec2.InstanceId instance) ∪ confirmedMappings instance.

(** Every key of every in-flight map is a path that starts with
    [devicePreffix]. *)
Definition inFlightKeysPrefixed (d : blockDeviceManager) : Prop :=
  map_Forall (fun _ m =>
                map_Forall (fun path (_ : string) =>
                              HasPrefix path devicePreffix = true) m)
             (attaching d).

(** The allocator [NewBlockDevice] consults for a node: the stored one, or a
    new one when the node has none yet. *)
Definition allocatorOf (d : blockDeviceManager) (nodeID : string) : A :=
  default NewDeviceAllocator (deviceAllocators d !! nodeID).

End manager.

Arguments blockDeviceManager A : clear implicits.

End devicemanager.

(** ** Package cloud *)

Module cloud.

(** The interface [DeviceManager] held in [Cloud.dm], as [AttachDisk] and
    [DetachDisk] use it; its declaration is not among the sources.  [S] is
    the state behind the interface, [R] whatever [ReleaseDevice] returns
    (both callers discard it). *)
Class DeviceManager (S R : Type) : Type := {
  GetDevice : S -> string -> string -> S * result (string * bool);
  GetAssignedDevice : S -> string -> string -> S * result string;
  ReleaseDevice : S -> string -> string -> string -> S * R
}.

(** The two methods of the interface [EC2] that [AttachDisk] and
    [DetachDisk] call, over a state [W] of the cloud.  The arguments are
    the fields set in [ec2.AttachVolumeInput] ([Device], [InstanceId],
    [VolumeId]) and [ec2.DetachVolumeInput] ([InstanceId], [VolumeId]);
    the attachment in a successful response is only logged. *)
Class EC2 (W : Type) : Type := {
  AttachVolume : W -> string -> string -> string -> W * result unit;
  DetachVolume : W -> string -> string -> W * result unit
}.

(** A call that leaves [Cloud]: to a method of [EC2] or of
    [DeviceManager]. *)
Inductive Call : Type :=
| CallDescribeVolumes
| CallCreateVolume
| CallDeleteVolume
| CallDescribeInstances
| CallAttachVolume (Device InstanceId VolumeId : string)
| CallDetachVolume (InstanceId VolumeId : string)
| CallGetDevice (nodeID volumeID : string)
| CallGetAssignedDevice (nodeID volumeID : string)
| CallReleaseDevice (nodeID volumeID mntDevice : string).

Definition isReleaseDevice (c : Call) : bool :=
  match c with CallReleaseDevice _ _ _ => true | _ => false end.

Definition isAttachVolume (c : Call) : bool :=
  match c with CallAttachVolume _ _ _ => true | _ => false end.

(** How many of the calls satisfy the test. *)
Definition countOf (test : Call -> bool) (calls : list Call) : nat :=
  length (List.filter test calls).

Definition isDescribe (c : Call) : bool :=
  match c with
  | CallDescribeVolumes | CallDescribeInstances => true
  | _ => false
  end.

Section cloud.
Context {S R W : Type} {DM : DeviceManager S R} {E : EC2 W}.

(** [Cloud]: the device manager and the EC2 client ([metadata] is not
    read by the two operations). *)
Record Cloud : Type := {
  dm : S;
  ec2 : W
}.

(** Computations of the package: they update the [Cloud] and append the
    calls they make to a log. *)
Definition M (X : Type) : Type := Cloud * list Call -> X * (Cloud * list Call).

#[local] Instance M_ret : MRet M := fun X x s => (x, s).

#[local] Instance M_bind : MBind M :=
  fun X Y k m s => let '(x, s') := m s in k x s'.

Definition dmGetDevice (nodeID volumeID : string)
  : M (result (string * bool)) :=
  fun '(c, log) =>
    let '(s, r) := GetDevice (dm c) nodeID volumeID in
    (r, ({| dm := s; ec2 := ec2 c |},
         (log ++ [CallGetDevice nodeID volumeID])%list)).

Definition dmGetAssignedDevice (nodeID volumeID : string)
  : M (result string) :=
  fun '(c, log) =>
    let '(s, r) := GetAssignedDevice (dm c) nodeID volumeID in
    (r, ({| dm := s; ec2 := ec2 c |},
         (log ++ [CallGetAssignedDevice nodeID volumeID])%list)).

Definition dmReleaseDevice (nodeID volumeID mntDevice : string) : M R :=
  fun '(c, log) =>
    let '(s, r) := ReleaseDevice (dm c) nodeID volumeID mntDevice in
    (r, ({| dm := s; ec2 := ec2 c |},
         (log ++ [CallReleaseDevice nodeID volumeID mntDevice])%list)).

Definition ec2AttachVolume (device instanceId volumeId : string)
  : M (result unit) :=
  fun '(c, log) =>
    let '(w, r) := AttachVolume (ec2 c) device instanceId volumeId in
    (r, ({| dm := dm c; ec2 := w |},
         (log ++ [CallAttachVolume device instanceId volumeId])%list)).

Definition ec2DetachVolume (instanceId volumeId : string)
  : M (result unit) :=
  fun '(c, log) =>
    let '(w, r) := DetachVolume (ec2 c) instanceId volumeId in
    (r, ({| dm := dm c; ec2 := w |},
         (log ++ [CallDetachVolume instanceId volumeId])%list)).

(** [AttachDisk].  The function body yields the value of [attachEnded]
    at the return statement it leaves through, together with the values
    returned; the deferred function then runs on that flag. *)
Definition AttachDisk (volumeID nodeID : string) : M (result string) :=
  r ← dmGetDevice nodeID volumeID ;
  match r with
  | Err mntErr => mret (Err mntErr)
  | Ok (mntDevice, alreadyAttached) =>
      let attachEnded := false in
      let device := mntDevice in
      '(attachEnded, returned) ←
        (if negb alreadyAttached then
           resp ← ec2AttachVolume device nodeID volumeID ;
           match resp with
           | Err err =>
               let attachEnded := true in
               mret (attachEnded, Err (errAttach volumeID nodeID err))
           | Ok _ =>
               let attachEnded := true in
               mret (attachEnded, Ok device)
           end
         else
           let attachEnded := true in
           mret (attachEnded, Ok device)) ;
      _ ← (if attachEnded : bool
            then _ ← dmReleaseDevice nodeID volumeID mntDevice ; mret tt
            else mret tt) ;
      mret returned
  end.

(** [DetachDisk]: the returned option is the Go error, [None] for nil. *)
Definition DetachDisk (volumeID nodeID : string) : M (option error) :=
  r ← dmGetAssignedDevice nodeID volumeID ;
  match r with
  | Err err => mret (Some err)
  | Ok mntDevice =>
      resp ← ec2DetachVolume nodeID volumeID ;
      match resp with
      | Err err => mret (Some (errDetach volumeID nodeID err))
      | Ok _ =>
          _ ← (if bool_decide (mntDevice ≠ "")
                then _ ← dmReleaseDevice nodeID volumeID mntDevice ; mret tt
                else mret tt) ;
          mret None
      end
  end.

End cloud.

Arguments Cloud S W : clear implicits.

(** Modelled from the spec: the device manager held in [Cloud.dm] is not
    among the sources.  Following the orchestration the spec describes, the
    registry is asked on behalf of the instance currently described for the
    node: [GetDevice] reserves through [NewBlockDevice] and hands back the
    path and the already-assigned flag of the device, [GetAssignedDevice]
    looks the volume up through [GetBlockDevice], and [ReleaseDevice]
    releases the device made of that instance, the volume and the path.
    [instances] is what describing a node currently returns ([None] for the
    nil instance). *)
Section registryDeviceManager.
Context {A : Type} `{devicemanager.DeviceAllocator A}.

Record registryState : Type := {
  registry : devicemanager.blockDeviceManager A;
  instances : gmap string ec2.Instance
}.

Definition registryGetDevice (o : RangeOrder) (s : registryState)
    (nodeID volumeID : string) : registryState * result (string * bool) :=
  let '(d, r) :=
    devicemanager.NewBlockDevice o (registry s) (instances s !! nodeID)
                                 volumeID in
  ({| registry := d; instances := instances s |},
   match r with
   | Ok device =>
       Ok (devicemanager.Path device, devicemanager.IsAlreadyAssigned device)
   | Err err => Err err
   end).

Definition registryGetAssignedDevice (o : RangeOrder) (s : registryState)
    (nodeID volumeID : string) : registryState * result string :=
  (s,
   match devicemanager.GetBlockDevice o (registry s) (instances s !! nodeID)
                                      volumeID with
   | Ok device => Ok (devicemanager.Path device)
   | Err err => Err err
   end).

Definition registryReleaseDevice (s : registryState)
    (nodeID volumeID mntDevice : string) : registryState * option error :=
  let '(d, err) :=
    devicemanager.release (registry s)
      (devicemanager.newBlockDevice (instances s !! nodeID) volumeID
                                    mntDevice false) in
  ({| registry := d; instances := instances s |}, err).

Definition registryDeviceManager (o : RangeOrder)
  : DeviceManager registryState (option error) := {|
  GetDevice := registryGetDevice o;
  GetAssignedDevice := registryGetAssignedDevice o;
  ReleaseDevice := registryReleaseDevice
|}.

End registryDeviceManager.

Arguments registryState A : clear implicits.

(** An EC2 endpoint for the examples: its state is the answer it gives to
    every attach and detach request. *)
Definition constantEC2 : EC2 (result unit) := {|
  AttachVolume := fun w _ _ _ => (w, w);
  DetachVolume := fun w _ _ => (w, w)
|}.

End cloud.

Import devicemanager.

(** ** Statements that are put to the test, and the data of the examples *)

Section statements.
Context {A : Type} `{DeviceAllocator A}.

(** The volume is attached at the device name [name] and nowhere else, and
    no other mapping of the instance has a name with the same suffix. *)
Definition attachedOnlyAt (instance : ec2.Instance) (name volumeID : string)
  : Prop :=
  {| ec2.DeviceName := name; ec2.VolumeId := volumeID |}
    ∈ ec2.BlockDeviceMappings instance
  /\ forall blockDevice,
       blockDevice ∈ ec2.BlockDeviceMappings instance ->
       ec2.VolumeId blockDevice = volumeID
       \/ deviceSuffix (ec2.DeviceName blockDevice) = deviceSuffix name ->
       blockDevice = {| ec2.DeviceName := name; ec2.VolumeId := volumeID |}.

(** Idempotent reservation, read literally: whenever the volume is a value
    of the merged view, [NewBlockDevice] returns a key that holds it, marked
    as already assigned, and leaves the registry (allocators included) as it
    is; and two reservations in a row return the same path. *)
Definition reserveIsIdempotent (d : blockDeviceManager A)
    (instance : ec2.Instance) (volumeID : string) : Prop :=
  forall o1 o2, valid_order o1 -> valid_order o2 ->
    ((exists k, mergedView d instance !! k = Some volumeID) ->
     exists path,
       mergedView d instance !! path = Some volumeID
       /\ NewBlockDevice o1 d (Some instance) volumeID
          = (d, Ok (newBlockDevice (Some instance) volumeID path true)))
    /\ (forall d1 device1,
          NewBlockDevice o1 d (Some instance) volumeID = (d1, Ok device1) ->
          NewBlockDevice o2 d1 (Some instance) volumeID
          = (d1, Ok (newBlockDevice (Some instance) volumeID
                       (Path device1) true))).

(** The registries that calls of the package produce from a new manager. *)
Inductive reachable : blockDeviceManager A -> Prop :=
| reachable_new : reachable NewBlockDeviceManager
| reachable_NewBlockDevice o d instance volumeID :
    reachable d -> reachable (fst (NewBlockDevice o d instance volumeID))
| reachable_release d device :
    reachable d -> reachable (fst (release d device)).

(** Exhaustion, read literally, in two parts: when the volume is not found
    and the allocator has no suffix left, [NewBlockDevice] fails with the
    message quoted for the condition; and the failed call returns the
    registry it was given. *)
Definition exhaustionMessage (o : RangeOrder)
    (d : blockDeviceManager A) (instance : ec2.Instance) (volumeID : string)
  : Prop :=
  getPath o (mergedView d instance) volumeID = "" ->
  GetNext (allocatorOf d (ec2.InstanceId instance)) (mergedView d instance)
  = None ->
  exists d' err,
    NewBlockDevice o d (Some instance) volumeID = (d', Err err)
    /\ forall q, Error q err
                 = "too many volumes attached to node "
                     ++ ec2.InstanceId instance.

Definition exhaustionLeavesRegistry (o : RangeOrder)
    (d : blockDeviceManager A) (instance : ec2.Instance) (volumeID : string)
  : Prop :=
  getPath o (mergedView d instance) volumeID = "" ->
  GetNext (allocatorOf d (ec2.InstanceId instance)) (mergedView d instance)
  = None ->
  exists err, NewBlockDevice o d (Some instance) volumeID = (d, Err err).

(** Runs of serialized calls: reserve the volumes one after the other;
    release the devices one after the other. *)
Definition reserveAll (o : RangeOrder) (d : blockDeviceManager A)
    (instance : option ec2.Instance) (volumes : list string)
  : blockDeviceManager A :=
  foldl (fun d volumeID => fst (NewBlockDevice o d instance volumeID))
        d volumes.

Definition releaseAll (d : blockDeviceManager A) (devices : list BlockDevice)
  : blockDeviceManager A :=
  foldl (fun d device => fst (release d device)) d devices.

(** The device that a reservation (suffix, volume) hands to its caller. *)
Definition reservedDevice (instance : option ec2.Instance)
    (reservation : string * string) : BlockDevice :=
  newBlockDevice instance (snd reservation)
                 (devicePreffix ++ fst reservation) false.

(** The in-flight entry of a reservation (suffix, volume). *)
Definition pathOf (reservation : string * string) : string * string :=
  (devicePreffix ++ fst reservation, snd reservation).

(** Once around the pool, on a new manager: reserve a volume for every
    suffix, then release every device but the first.  [reservations] pairs
    each suffix with the volume that is to get it. *)
Definition wrapAround (o : RangeOrder) (instance : option ec2.Instance)
    (reservations : list (string * string)) : blockDeviceManager A :=
  releaseAll (reserveAll o NewBlockDeviceManager instance reservations.*2)
             (reservedDevice instance <$> tail reservations).

(** The suffixes of a pool that are free for a node: neither a key of the
    merged view themselves nor, with the device prefix, the path of an
    entry. *)
Definition freeSuffixes (pool : list string) (d : blockDeviceManager A)
    (instance : ec2.Instance) : list string :=
  filter (fun s => mergedView d instance !! s = None
                   /\ mergedView d instance !! (devicePreffix ++ s) = None)
         pool.

End statements.

(** A second iteration order: the entries in reverse. *)
Definition reverseOrder : RangeOrder := fun m => reverse (map_to_list m).

(** A pool of three suffixes and the allocator over it. *)
Definition smallPool : list string := ["f"; "g"; "h"].

Definition smallAllocator : DeviceAllocator (list string) :=
  listAllocator smallPool.

(** The instance "i-1" with the given (device name, volume id) mappings. *)
Definition node1 (mappings : list (string * string)) : ec2.Instance := {|
  ec2.InstanceId := "i-1";
  ec2.BlockDeviceMappings :=
    map (fun '(name, volume) =>
           {| ec2.DeviceName := name; ec2.VolumeId := volume |}) mappings
|}.

(** The registry after this run on a new manager, for node "i-1" with
    nothing attached and the pool [smallPool]: reserve "vol-1", "vol-2" and
    "vol-3", then release the devices of "vol-2" and "vol-3".  The
    reservation of "vol-1" is still outstanding. *)
Definition raceRegistry : blockDeviceManager (list string) :=
  wrapAround (H := smallAllocator) map_to_list (Some (node1 []))
             [("f", "vol-1"); ("g", "vol-2"); ("h", "vol-3")].

(** A [Cloud] for the examples: the registry of a new manager behind
    [Cloud.dm], the node "i-1" described with the given mappings, and an EC2
    endpoint that answers every request with [answer]. *)
Definition cloudWith (mappings : list (string * string)) (answer : result unit)
  : cloud.Cloud (cloud.registryState (list string)) (result unit) := {|
  cloud.dm := {| cloud.registry := NewBlockDeviceManager;
                 cloud.instances := {["i-1" := node1 mappings]} |};
  cloud.ec2 := answer
|}.

Definition smallDeviceManager
  : cloud.DeviceManager (cloud.registryState (list string)) (option error) :=
  cloud.registryDeviceManager (H := smallAllocator) map_to_list.

(** Checks that compute: the volume is no value of the map; every in-flight
    key starts with the device prefix. *)
Definition notValueOf (volumeID : string) (m : gmap string string) : bool :=
  forallb (fun '(_, v) => negb (String.eqb v volumeID)) (map_to_list m).

Definition keysPrefixed {A : Type} (d : blockDeviceManager A) : bool :=
  forallb (fun '(_, m) =>
             forallb (fun '(path, _) => HasPrefix path devicePreffix)
                     (map_to_list (m : gmap string string)))
          (map_to_list (attaching d)).

(** ** Package cloud: disks and instances *)

(** More of the EC2 API: the requests and responses of [CreateVolume],
    [DeleteVolume], [DescribeVolumes] and [DescribeInstances], reduced to
    the fields the package sets or reads.  Pointer fields are read through
    [aws.StringValue] and [aws.Int64Value], so a string that is nil reads
    as empty and an integer that is nil as zero; [Iops], which the package
    leaves nil in some requests, is an option.  [int64] values are
    integers; the one product the package computes wraps around. *)
Module ec2api.

Module Tag.
Record t : Type := { Key : string; Value : string }.
End Tag.

Module TagSpecification.
Record t : Type := { ResourceType : string; Tags : list Tag.t }.
End TagSpecification.

Module CreateVolumeInput.
Record t : Type := {
  AvailabilityZone : string;
  Size : Z;
  VolumeType : string;
  Iops : option Z;
  TagSpecifications : list TagSpecification.t
}.
End CreateVolumeInput.

Module Volume.
Record t : Type := { VolumeId : string; Size : Z; Tags : list Tag.t }.
End Volume.

Module Filter.
Record t : Type := { Name : string; Values : list string }.
End Filter.

Module DescribeVolumesInput.
Record t : Type := { Filters : list Filter.t; NextToken : string }.
End DescribeVolumesInput.

Module DescribeVolumesOutput.
Record t : Type := { Volumes : list Volume.t; NextToken : string }.
End DescribeVolumesOutput.

Module DescribeInstancesInput.
Record t : Type := { InstanceIds : list string; NextToken : string }.
End DescribeInstancesInput.

Module Reservation.
Record t : Type := { Instances : list ec2.Instance }.
End Reservation.

Module DescribeInstancesOutput.
Record t : Type := { Reservations : list Reservation.t; NextToken : string }.
End DescribeInstancesOutput.

End ec2api.

Module disks.

Import ec2api.

(** The value an [int64] holds after an operation whose exact result is
    [z]. *)
Definition wrap64 (z : Z) : Z := ((z + 2 ^ 63) mod 2 ^ 64 - 2 ^ 63)%Z.

Definition VolumeNameTagKey : string := "com.amazon.aws.csi.volume".
Definition VolumeTypeIO1 : string := "io1".
Definition VolumeTypeGP2 : string := "gp2".
Definition VolumeTypeSC1 : string := "sc1".
Definition VolumeTypeST1 : string := "st1".
Definition MinTotalIOPS : Z := 100.
Definition MaxTotalIOPS : Z := 20000.
Definition DefaultVolumeType : string := VolumeTypeGP2.

(** An error of the EC2 client: one that implements [awserr.Error], with
    its code, or any other error. *)
Inductive awsError : Type :=
| AwsErr (code message : string)
| PlainErr (message : string).

(** The errors of the disk and instance operations: the three error
    variables of the package, one constructor per [fmt.Errorf] site, and
    [errClient] for an error of the client that is returned as it is. *)
Inductive diskError : Type :=
| ErrMultiDisks
| ErrDiskExistsDiffSize
| ErrVolumeNotFound
| errInvalidVolumeType (volumeType : string)
| errCreateVolume (cause : awsError)
| errNoVolumeID
| errNoDiskSize
| errDeleteVolume (cause : awsError)
| errClient (cause : awsError)
| errListInstances (cause : awsError)
| errInstanceCount (nodeID : string) (got : nat).

(** A Go result pair [(T, error)] of these operations. *)
Inductive outcome (T : Type) : Type :=
| Done (t : T)
| Failed (e : diskError).
Arguments Done {T} t.
Arguments Failed {T} e.

(** What a method of the client returns: its output or an error. *)
Inductive response (T : Type) : Type :=
| Answer (t : T)
| Fault (err : awsError).
Arguments Answer {T} t.
Arguments Fault {T} err.

Module Disk.
Record t : Type := { VolumeID : string; CapacityGiB : Z }.
End Disk.

Module DiskOptions.
Record t : Type := {
  CapacityBytes : Z;
  Tags : gmap string string;
  VolumeType : string;
  IOPSPerGB : Z
}.
End DiskOptions.

(** The other four methods of the interface [EC2], over a state [W] of the
    cloud.  [DeleteVolume] takes the one field of its input. *)
Class EC2Disks (W : Type) : Type := {
  CreateVolume : W -> CreateVolumeInput.t -> W * response Volume.t;
  DeleteVolume : W -> string -> W * response unit;
  DescribeVolumes :
    W -> DescribeVolumesInput.t -> W * response DescribeVolumesOutput.t;
  DescribeInstances :
    W -> DescribeInstancesInput.t -> W * response DescribeInstancesOutput.t
}.

(** A request sent to the client. *)
Inductive Request : Type :=
| ReqCreateVolume (input : CreateVolumeInput.t)
| ReqDeleteVolume (VolumeId : string)
| ReqDescribeVolumes (input : DescribeVolumesInput.t)
| ReqDescribeInstances (input : DescribeInstancesInput.t).

(** The volume types that [CreateDisk] accepts. *)
Definition accepted (volumeType : string) : Prop :=
  volumeType = "gp2" \/ volumeType = "sc1" \/ volumeType = "st1"
  \/ volumeType = "io1" \/ volumeType = "".

(** The tags that the loop of [CreateDisk] appends.  Each tag holds the
    addresses of the loop variables [key] and [value].  Where the language
    gives every iteration variables of its own ([perIteration], Go 1.22
    and later), the tags are the entries visited; where the loop has one
    pair of variables (earlier versions), every tag points at that pair,
    which holds the entry visited last once the request is built. *)
Definition rangeTags (perIteration : bool) (o : RangeOrder)
    (tags : gmap string string) : list Tag.t :=
  let visited := o tags in
  if perIteration then
    (fun '(key, value) => {| Tag.Key := key; Tag.Value := value |})
      <$> visited
  else
    match last visited with
    | Some (key, value) =>
        replicate (length visited) {| Tag.Key := key; Tag.Value := value |}
    | None => []
    end.

Section disks.
Context {W : Type} `{EC2Disks W}.

(** [util.BytesToGiB], which is not among the sources. *)
Variable BytesToGiB : Z -> Z.

(** [Cloud], as these operations use it: the availability zone that
    [GetMetadata] leads to and the client. *)
Record Cloud : Type := {
  metadataAvailabilityZone : string;
  ec2 : W
}.

(** [CreateDisk].  [volumeName] is not used by the function.  The result
    carries the state of the cloud and the requests sent so far. *)
Definition CreateDisk (perIteration : bool) (o : RangeOrder)
    (c : Cloud) (log : list Request)
    (volumeName : string) (diskOptions : DiskOptions.t)
  : (W * list Request) * outcome Disk.t :=
  let capacityGiB := BytesToGiB (DiskOptions.CapacityBytes diskOptions) in
  let volumeType := DiskOptions.VolumeType diskOptions in
  let chosen : option (string * Z) :=
    if bool_decide (volumeType = VolumeTypeGP2 \/ volumeType = VolumeTypeSC1
                    \/ volumeType = VolumeTypeST1)
    then Some (volumeType, 0%Z)
    else if bool_decide (volumeType = VolumeTypeIO1) then
      let iops :=
        wrap64 (capacityGiB * DiskOptions.IOPSPerGB diskOptions) in
      let iops := if (iops <? MinTotalIOPS)%Z then MinTotalIOPS else iops in
      let iops := if (MaxTotalIOPS <? iops)%Z then MaxTotalIOPS else iops in
      Some (volumeType, iops)
    else if bool_decide (volumeType = "") then Some (DefaultVolumeType, 0%Z)
    else None in
  match chosen with
  | None => ((ec2 c, log), Failed (errInvalidVolumeType volumeType))
  | Some (createType, iops) =>
      let tags := rangeTags perIteration o (DiskOptions.Tags diskOptions) in
      let tagSpec := {| TagSpecification.ResourceType := "volume";
                        TagSpecification.Tags := tags |} in
      let request := {|
        CreateVolumeInput.AvailabilityZone := metadataAvailabilityZone c;
        CreateVolumeInput.Size := capacityGiB;
        CreateVolumeInput.VolumeType := createType;
        CreateVolumeInput.Iops := if (0 <? iops)%Z then Some iops else None;
        CreateVolumeInput.TagSpecifications := [tagSpec]
      |} in
      let '(w, resp) := CreateVolume (ec2 c) request in
      let log := (log ++ [ReqCreateVolume request])%list in
      match resp with
      | Fault err => ((w, log), Failed (errCreateVolume err))
      | Answer response =>
          let volumeID := Volume.VolumeId response in
          if bool_decide (String.length volumeID = 0)
          then ((w, log), Failed errNoVolumeID)
          else
            let size := Volume.Size response in
            if bool_decide (size = 0%Z)
            then ((w, log), Failed errNoDiskSize)
            else ((w, log), Done {| Disk.CapacityGiB := size;
                                    Disk.VolumeID := volumeID |})
      end
  end.

(** [DeleteDisk]: the pair returned is [(bool, error)], [None] for nil. *)
Definition DeleteDisk (c : Cloud) (log : list Request) (volumeID : string)
  : (W * list Request) * (bool * option diskError) :=
  let '(w, resp) := DeleteVolume (ec2 c) volumeID in
  let log := (log ++ [ReqDeleteVolume volumeID])%list in
  match resp with
  | Fault err =>
      match err with
      | AwsErr code _ =>
          if bool_decide (code = "InvalidVolume.NotFound")
          then ((w, log), (false, Some ErrVolumeNotFound))
          else ((w, log), (false, Some (errDeleteVolume err)))
      | PlainErr _ => ((w, log), (false, Some (errDeleteVolume err)))
      end
  | Answer _ => ((w, log), (true, None))
  end.

(** The loop of [GetDiskByNameAndSize], one iteration per unit of fuel:
    [None] when the fuel runs out before the client returns an empty
    token.  [nextToken] is the token of the request, [volumes] what has
    been collected. *)
Fixpoint describeVolumesLoop (fuel : nat) (w : W) (log : list Request)
    (name nextToken : string) (volumes : list Volume.t)
  : option ((W * list Request) * outcome (list Volume.t)) :=
  match fuel with
  | O => None
  | S fuel =>
      let request := {|
        DescribeVolumesInput.Filters :=
          [{| Filter.Name := "tag:" ++ VolumeNameTagKey;
              Filter.Values := [name] |}];
        DescribeVolumesInput.NextToken := nextToken
      |} in
      let '(w, resp) := DescribeVolumes w request in
      let log := (log ++ [ReqDescribeVolumes request])%list in
      match resp with
      | Fault err => Some ((w, log), Failed (errClient err))
      | Answer response =>
          let volumes :=
            (volumes ++ DescribeVolumesOutput.Volumes response)%list in
          let nextToken := DescribeVolumesOutput.NextToken response in
          if bool_decide (nextToken = "")
          then Some ((w, log), Done volumes)
          else describeVolumesLoop fuel w log name nextToken volumes
      end
  end.

(** [GetDiskByNameAndSize]: [Done None] is the pair of nils. *)
Definition GetDiskByNameAndSize (fuel : nat) (c : Cloud) (log : list Request)
    (name : string) (capacityBytes : Z)
  : option ((W * list Request) * outcome (option Disk.t)) :=
  match describeVolumesLoop fuel (ec2 c) log name "" [] with
  | None => None
  | Some (st, Failed err) => Some (st, Failed err)
  | Some (st, Done volumes) =>
      Some (st,
        if bool_decide (1 < length volumes) then Failed ErrMultiDisks
        else
          match volumes with
          | [] => Done None
          | volume :: _ =>
              let volSizeBytes := Volume.Size volume in
              if bool_decide (volSizeBytes ≠ BytesToGiB capacityBytes)
              then Failed ErrDiskExistsDiffSize
              else Done (Some {| Disk.VolumeID := Volume.VolumeId volume;
                                 Disk.CapacityGiB := volSizeBytes |})
          end)
  end.

(** The loop of [getInstance], with fuel as above. *)
Fixpoint describeInstancesLoop (fuel : nat) (w : W) (log : list Request)
    (nodeID nextToken : string) (results : list ec2.Instance)
  : option ((W * list Request) * outcome (list ec2.Instance)) :=
  match fuel with
  | O => None
  | S fuel =>
      let request := {|
        DescribeInstancesInput.InstanceIds := [nodeID];
        DescribeInstancesInput.NextToken := nextToken
      |} in
      let '(w, resp) := DescribeInstances w request in
      let log := (log ++ [ReqDescribeInstances request])%list in
      match resp with
      | Fault err => Some ((w, log), Failed (errListInstances err))
      | Answer response =>
          let results :=
            foldl (fun results reservation =>
                     (results ++ Reservation.Instances reservation)%list)
                  results (DescribeInstancesOutput.Reservations response) in
          let nextToken := DescribeInstancesOutput.NextToken response in
          if bool_decide (nextToken = "")
          then Some ((w, log), Done results)
          else describeInstancesLoop fuel w log nodeID nextToken results
      end
  end.

Definition getInstance (fuel : nat) (c : Cloud) (log : list Request)
    (nodeID : string)
  : option ((W * list Request) * outcome ec2.Instance) :=
  match describeInstancesLoop fuel (ec2 c) log nodeID "" [] with
  | None => None
  | Some (st, Failed err) => Some (st, Failed err)
  | Some (st, Done results) =>
      Some (st,
        match results with
        | [instance] => Done instance
        | _ => Failed (errInstanceCount nodeID (length results))
        end)
  end.

(** *** Notions used in the statements *)

(** The pages that the client returns to the successive requests of the
    volume loop, from state [w] and token [nextToken] on, up to and
    including the first page with an empty token, and the state it is in
    afterwards. *)
Inductive volumePages (name : string)
  : W -> string -> list DescribeVolumesOutput.t -> W -> Prop :=
| volumePages_last w nextToken page w' :
    DescribeVolumes w
      {| DescribeVolumesInput.Filters :=
           [{| Filter.Name := "tag:" ++ VolumeNameTagKey;
               Filter.Values := [name] |}];
         DescribeVolumesInput.NextToken := nextToken |}
    = (w', Answer page) ->
    DescribeVolumesOutput.NextToken page = "" ->
    volumePages name w nextToken [page] w'
| volumePages_more w nextToken page w1 pages w' :
    DescribeVolumes w
      {| DescribeVolumesInput.Filters :=
           [{| Filter.Name := "tag:" ++ VolumeNameTagKey;
               Filter.Values := [name] |}];
         DescribeVolumesInput.NextToken := nextToken |}
    = (w1, Answer page) ->
    DescribeVolumesOutput.NextToken page ≠ "" ->
    volumePages name w1 (DescribeVolumesOutput.NextToken page) pages w' ->
    volumePages name w nextToken (page :: pages) w'.

(** The same for the instance loop. *)
Inductive instancePages (nodeID : string)
  : W -> string -> list DescribeInstancesOutput.t -> W -> Prop :=
| instancePages_last w nextToken page w' :
    DescribeInstances w
      {| DescribeInstancesInput.InstanceIds := [nodeID];
         DescribeInstancesInput.NextToken := nextToken |}
    = (w', Answer page) ->
    DescribeInstancesOutput.NextToken page = "" ->
    instancePages nodeID w nextToken [page] w'
| instancePages_more w nextToken page w1 pages w' :
    DescribeInstances w
      {| DescribeInstancesInput.InstanceIds := [nodeID];
         DescribeInstancesInput.NextToken := nextToken |}
    = (w1, Answer page) ->
    DescribeInstancesOutput.NextToken page ≠ "" ->
    instancePages nodeID w1 (DescribeInstancesOutput.NextToken page) pages w' ->
    instancePages nodeID w nextToken (page :: pages) w'.

(** The requests of the two loops for a run of pages: the first carries
    the token given, each later one the token of the page before it. *)
Fixpoint volumeRequests (name nextToken : string)
    (pages : list DescribeVolumesOutput.t) : list Request :=
  match pages with
  | [] => []
  | page :: pages =>
      ReqDescribeVolumes
        {| DescribeVolumesInput.Filters :=
             [{| Filter.Name := "tag:" ++ VolumeNameTagKey;
                 Filter.Values := [name] |}];
           DescribeVolumesInput.NextToken := nextToken |}
      :: volumeRequests name (DescribeVolumesOutput.NextToken page) pages
  end.

Fixpoint instanceRequests (nodeID nextToken : string)
    (pages : list DescribeInstancesOutput.t) : list Request :=
  match pages with
  | [] => []
  | page :: pages =>
      ReqDescribeInstances
        {| DescribeInstancesInput.InstanceIds := [nodeID];
           DescribeInstancesInput.NextToken := nextToken |}
      :: instanceRequests nodeID (DescribeInstancesOutput.NextToken page) pages
  end.

(** The instances of a page, reservation by reservation. *)
Definition instancesOf (page : DescribeInstancesOutput.t)
  : list ec2.Instance :=
  concat (Reservation.Instances <$> DescribeInstancesOutput.Reservations page).

End disks.

Arguments Cloud W : clear implicits.

(** A client for the examples.  Its state holds the answer it gives to
    every [CreateVolume] and to every [DeleteVolume], and the pages it has
    yet to return to [DescribeVolumes] and to [DescribeInstances]; with no
    page left it returns an empty page. *)
Record script : Type := {
  created : response Volume.t;
  deleted : response unit;
  volumePagesLeft : list DescribeVolumesOutput.t;
  instancePagesLeft : list DescribeInstancesOutput.t
}.

Definition scriptedEC2 : EC2Disks script := {|
  CreateVolume := fun w _ => (w, created w);
  DeleteVolume := fun w _ => (w, deleted w);
  DescribeVolumes := fun w _ =>
    match volumePagesLeft w with
    | [] => (w, Answer {| DescribeVolumesOutput.Volumes := [];
                          DescribeVolumesOutput.NextToken := "" |})
    | page :: pages =>
        ({| created := created w; deleted := deleted w;
            volumePagesLeft := pages;
            instancePagesLeft := instancePagesLeft w |},
         Answer page)
    end;
  DescribeInstances := fun w _ =>
    match instancePagesLeft w with
    | [] => (w, Answer {| DescribeInstancesOutput.Reservations := [];
                          DescribeInstancesOutput.NextToken := "" |})
    | page :: pages =>
        ({| created := created w; deleted := deleted w;
            volumePagesLeft := volumePagesLeft w;
            instancePagesLeft := pages |},
         Answer page)
    end
|}.

End disks.

(** * The earlier provider [awsEBS]: volumes by tag *)

Module awsebs.

Import ec2api.

(** [volume] carries a tag with this key and this value. *)
Definition tagged (tagKey tagVal : string) (volume : Volume.t) : Prop :=
  Exists (fun tag => Tag.Key tag = tagKey /\ Tag.Value tag = tagVal)
         (Volume.Tags volume).

#[global] Instance tagged_dec tagKey tagVal volume :
  Decision (tagged tagKey tagVal volume).
Proof. unfold tagged. apply _. Defined.

Section awsebs.
Context {W : Type} `{disks.EC2Disks W}.

(** [awsEBS], without the field [tagging], which this function does not
    read. *)
Record awsEBS : Type := { ec2 : W }.

(** The loop over the tags of one volume in [GetVolumesByTagName]: at the
    first tag that has the key and the value it appends the id of the
    volume and breaks.  The fields of tags and volumes are taken as set;
    the code dereferences them. *)
Fixpoint rangeVolumeTags (tagKey tagVal volumeId : string)
    (tags : list Tag.t) (volumes : list string) : list string :=
  match tags with
  | [] => volumes
  | tag :: tags =>
      if bool_decide (Tag.Key tag = tagKey)
         && bool_decide (Tag.Value tag = tagVal)
      then (volumes ++ [volumeId])%list
      else rangeVolumeTags tagKey tagVal volumeId tags volumes
  end.

(** The outer loop, one iteration per unit of fuel.  The request has no
    filter. *)
Fixpoint describeLoop (fuel : nat) (w : W) (log : list disks.Request)
    (tagKey tagVal nextToken : string) (volumes : list string)
  : option ((W * list disks.Request) * disks.outcome (list string)) :=
  match fuel with
  | O => None
  | S fuel =>
      let request := {| DescribeVolumesInput.Filters := [];
                        DescribeVolumesInput.NextToken := nextToken |} in
      let '(w, resp) := disks.DescribeVolumes w request in
      let log := (log ++ [disks.ReqDescribeVolumes request])%list in
      match resp with
      | disks.Fault err => Some ((w, log), disks.Failed (disks.errClient err))
      | disks.Answer response =>
          let volumes :=
            foldl (fun volumes volume =>
                     rangeVolumeTags tagKey tagVal (Volume.VolumeId volume)
                                     (Volume.Tags volume) volumes)
                  volumes (DescribeVolumesOutput.Volumes response) in
          let nextToken := DescribeVolumesOutput.NextToken response in
          if bool_decide (nextToken = "")
          then Some ((w, log), disks.Done volumes)
          else describeLoop fuel w log tagKey tagVal nextToken volumes
      end
  end.

Definition GetVolumesByTagName (fuel : nat) (c : awsEBS)
    (log : list disks.Request) (tagKey tagVal : string)
  : option ((W * list disks.Request) * disks.outcome (list string)) :=
  describeLoop fuel (ec2 c) log tagKey tagVal "" [].

(** The pages that the client returns to the successive requests of this
    loop, up to and including the first with an empty token. *)
Inductive pagesFrom
  : W -> string -> list DescribeVolumesOutput.t -> W -> Prop :=
| pagesFrom_last w nextToken page w' :
    disks.DescribeVolumes w
      {| DescribeVolumesInput.Filters := [];
         DescribeVolumesInput.NextToken := nextToken |}
    = (w', disks.Answer page) ->
    DescribeVolumesOutput.NextToken page = "" ->
    pagesFrom w nextToken [page] w'
| pagesFrom_more w nextToken page w1 pages w' :
    disks.DescribeVolumes w
      {| DescribeVolumesInput.Filters := [];
         DescribeVolumesInput.NextToken := nextToken |}
    = (w1, disks.Answer page) ->
    DescribeVolumesOutput.NextToken page ≠ "" ->
    pagesFrom w1 (DescribeVolumesOutput.NextToken page) pages w' ->
    pagesFrom w nextToken (page :: pages) w'.

Fixpoint requestsFrom (nextToken : string)
    (pages : list DescribeVolumesOutput.t) : list disks.Request :=
  match pages with
  | [] => []
  | page :: pages =>
      disks.ReqDescribeVolumes
        {| DescribeVolumesInput.Filters := [];
           DescribeVolumesInput.NextToken := nextToken |}
      :: requestsFrom (DescribeVolumesOutput.NextToken page) pages
  end.

End awsebs.

Arguments awsEBS W : clear implicits.

End awsebs.

(** ** Examples for the disk operations *)

(** A conversion for the examples: whole GiB, rounding up. *)
Definition exampleBytesToGiB (bytes : Z) : Z :=
  ((bytes + 2 ^ 30 - 1) / 2 ^ 30)%Z.

Definition volumeA : ec2api.Volume.t := {|
  ec2api.Volume.VolumeId := "vol-a";
  ec2api.Volume.Size := 4;
  ec2api.Volume.Tags :=
    [{| ec2api.Tag.Key := "team"; ec2api.Tag.Value := "storage" |};
     {| ec2api.Tag.Key := "team"; ec2api.Tag.Value := "storage" |}]
|}.

Definition volumeB : ec2api.Volume.t := {|
  ec2api.Volume.VolumeId := "vol-b";
  ec2api.Volume.Size := 8;
  ec2api.Volume.Tags :=
    [{| ec2api.Tag.Key := "team"; ec2api.Tag.Value := "network" |}]
|}.

(** Two pages of volumes and two of instances: the first of each has a
    token, the second ends the listing. *)
Definition volumePagesAB : list ec2api.DescribeVolumesOutput.t :=
  [{| ec2api.DescribeVolumesOutput.Volumes := [volumeA];
      ec2api.DescribeVolumesOutput.NextToken := "page-2" |};
   {| ec2api.DescribeVolumesOutput.Volumes := [];
      ec2api.DescribeVolumesOutput.NextToken := "" |}].

Definition volumePagesBoth : list ec2api.DescribeVolumesOutput.t :=
  [{| ec2api.DescribeVolumesOutput.Volumes := [volumeB; volumeA];
      ec2api.DescribeVolumesOutput.NextToken := "page-2" |};
   {| ec2api.DescribeVolumesOutput.Volumes := [volumeA];
      ec2api.DescribeVolumesOutput.NextToken := "" |}].

Definition instancePagesOne : list ec2api.DescribeInstancesOutput.t :=
  [{| ec2api.DescribeInstancesOutput.Reservations :=
        [{| ec2api.Reservation.Instances := [] |}];
      ec2api.DescribeInstancesOutput.NextToken := "page-2" |};
   {| ec2api.DescribeInstancesOutput.Reservations :=
        [{| ec2api.Reservation.Instances := [node1 []] |}];
      ec2api.DescribeInstancesOutput.NextToken := "" |}].

(** The state of the scripted client that answers [CreateVolume] with
    [volumeA], [DeleteVolume] without error, and has these pages left. *)
Definition scriptWith (volumePages : list ec2api.DescribeVolumesOutput.t)
    (instancePages : list ec2api.DescribeInstancesOutput.t) : disks.script := {|
  disks.created := disks.Answer volumeA;
  disks.deleted := disks.Answer tt;
  disks.volumePagesLeft := volumePages;
  disks.instancePagesLeft := instancePages
|}.

(** The state of the scripted client for which the volume to delete is
    already gone. *)
Definition scriptVolumeGone : disks.script := {|
  disks.created := disks.Answer volumeA;
  disks.deleted :=
    disks.Fault (disks.AwsErr "InvalidVolume.NotFound"
                              "The volume does not exist.");
  disks.volumePagesLeft := [];
  disks.instancePagesLeft := []
|}.

Definition diskCloud (w : disks.script) : disks.Cloud disks.script := {|
  disks.metadataAvailabilityZone := "us-east-1d";
  disks.ec2 := w
|}.

Definition twoTagOptions : disks.DiskOptions.t := {|
  disks.DiskOptions.CapacityBytes := 4 * 2 ^ 30;
  disks.DiskOptions.Tags :=
    {[ "com.amazon.aws.csi.volume" := "a"; "team" := "storage" ]};
  disks.DiskOptions.VolumeType := "io1";
  disks.DiskOptions.IOPSPerGB := 50
|}.

(** * Properties *)

(** ** Map iteration *)

Lemma valid_order_map_to_list : valid_order map_to_list.
Proof. intros m. reflexivity. Qed.

Lemma valid_order_NoDup_fst (o : RangeOrder) (m : gmap string string) :
  valid_order o -> NoDup (o m).*1.
Proof.
  intros Ho. rewrite (Ho m). apply NoDup_fst_map_to_list.
Qed.

Lemma valid_order_elem_of (o : RangeOrder) (m : gmap string string) k v :
  valid_order o -> (k, v) ∈ o m <-> m !! k = Some v.
Proof.
  intros Ho. rewrite (Ho m). apply elem_of_map_to_list.
Qed.

Lemma valid_order_to_map (o : RangeOrder) (m : gmap string string) :
  valid_order o -> list_to_map (o m) = m.
Proof.
  intros Ho. rewrite <- (list_to_map_to_list m) at 2.
  apply list_to_map_proper; [by apply valid_order_NoDup_fst | apply Ho].
Qed.

(** Assigning the entries of a duplicate-free list one by one gives the
    left-biased union with the starting map. *)
Lemma foldl_assign_union (l : list (string * string))
    (base : gmap string string) :
  NoDup l.*1 ->
  foldl (fun m '(device, volume) => <[device := volume]> m) base l
  = list_to_map l ∪ base.
Proof.
  revert base. induction l as [|[k v] l IH]; intros base Hnd; simpl.
  - by rewrite (left_id_L ∅ (∪)).
  - apply NoDup_cons in Hnd as [Hk Hnd].
    rewrite IH by done.
    rewrite <- insert_union_l.
    rewrite insert_union_r; [done|].
    by apply not_elem_of_list_to_map_1.
Qed.

Section manager_facts.
Context {A : Type} `{DeviceAllocator A}.
Implicit Types (d : blockDeviceManager A) (o : RangeOrder).
Implicit Types (inst : ec2.Instance) (m : gmap string string).

Lemma getDevicesInUse_merged o d inst :
  valid_order o ->
  getDevicesInUse o d inst (ec2.InstanceId inst) = Ok (mergedView d inst).
Proof.
  intros Ho. unfold getDevicesInUse, mergedView. f_equal.
  rewrite foldl_assign_union by (by apply valid_order_NoDup_fst).
  by rewrite valid_order_to_map.
Qed.

(** *** getPath *)

Lemma getPath_found o m volumeID :
  valid_order o ->
  getPath o m volumeID ≠ "" ->
  m !! getPath o m volumeID = Some volumeID.
Proof.
  intros Ho. unfold getPath.
  destruct (find _ (o m)) as [[k v]|] eqn:Hfind; [|done].
  intros _. apply find_some in Hfind as [Hin Hv].
  apply bool_decide_eq_true in Hv. subst v.
  apply (valid_order_elem_of o); [done|]. by apply list_elem_of_In.
Qed.

Lemma getPath_absent o m volumeID :
  (forall k, m !! k ≠ Some volumeID) ->
  valid_order o ->
  getPath o m volumeID = "".
Proof.
  intros Hno Ho. unfold getPath.
  destruct (find _ (o m)) as [[k v]|] eqn:Hfind; [|done].
  apply find_some in Hfind as [Hin Hv].
  apply bool_decide_eq_true in Hv. subst v.
  exfalso. apply (Hno k).
  apply (valid_order_elem_of o); [done|]. by apply list_elem_of_In.
Qed.

Lemma getPath_present o m volumeID k :
  valid_order o ->
  m !! k = Some volumeID ->
  m !! getPath o m volumeID = Some volumeID.
Proof.
  intros Ho Hk. unfold getPath.
  destruct (find _ (o m)) as [[k' v]|] eqn:Hfind.
  - apply find_some in Hfind as [Hin Hv].
    apply bool_decide_eq_true in Hv. subst v.
    apply (valid_order_elem_of o); [done|]. by apply list_elem_of_In.
  - exfalso.
    assert (Hin : In (k, volumeID) (o m)).
    { apply list_elem_of_In. by apply valid_order_elem_of. }
    apply (find_none _ _ Hfind) in Hin. simpl in Hin.
    by rewrite bool_decide_eq_true_2 in Hin.
Qed.

Lemma getPath_unique o m volumeID k :
  valid_order o ->
  m !! k = Some volumeID ->
  (forall k', m !! k' = Some volumeID -> k' = k) ->
  getPath o m volumeID = k.
Proof.
  intros Ho Hk Huniq. apply Huniq. by eapply getPath_present.
Qed.

End manager_facts.

(** ** NewBlockDevice, branch by branch *)

Section NewBlockDevice_facts.
Context {A : Type} `{DeviceAllocator A}.
Implicit Types (d : blockDeviceManager A) (o : RangeOrder).
Implicit Types (inst : ec2.Instance) (m : gmap string string).

Lemma NewBlockDevice_nil o d volumeID :
  NewBlockDevice o d None volumeID = (d, Err errNilInstance).
Proof. reflexivity. Qed.

Lemma NewBlockDevice_existing o d inst volumeID :
  valid_order o ->
  getPath o (mergedView d inst) volumeID ≠ "" ->
  NewBlockDevice o d (Some inst) volumeID
  = (d, Ok (newBlockDevice (Some inst) volumeID
              (getPath o (mergedView d inst) volumeID) true)).
Proof.
  intros Ho Hp. unfold NewBlockDevice. cbn [getInstanceID].
  rewrite getDevicesInUse_merged by done.
  by rewrite bool_decide_eq_true_2.
Qed.

Lemma NewBlockDevice_fresh o d inst volumeID suffix :
  valid_order o ->
  getPath o (mergedView d inst) volumeID = "" ->
  GetNext (allocatorOf d (ec2.InstanceId inst)) (mergedView d inst)
  = Some suffix ->
  NewBlockDevice o d (Some inst) volumeID
  = ({| deviceAllocators :=
          <[ec2.InstanceId inst
            := Deprioritize (allocatorOf d (ec2.InstanceId inst)) suffix]>
            (deviceAllocators d);
        attaching :=
          <[ec2.InstanceId inst
            := <[devicePreffix ++ suffix := volumeID]>
                 (attachingOf d (ec2.InstanceId inst))]>
            (attaching d) |},
     Ok (newBlockDevice (Some inst) volumeID (devicePreffix ++ suffix) false)).
Proof.
  intros Ho Hp Hnext. unfold NewBlockDevice. cbn [getInstanceID].
  rewrite getDevicesInUse_merged by done.
  rewrite Hp, bool_decide_eq_false_2 by (intros Hne; by apply Hne).
  unfold allocatorOf in *.
  destruct (deviceAllocators d !! ec2.InstanceId inst) as [a|] eqn:Ha;
    simpl in *; rewrite Hnext; [done|].
  by rewrite insert_insert_eq.
Qed.

Lemma NewBlockDevice_exhausted o d inst volumeID :
  valid_order o ->
  getPath o (mergedView d inst) volumeID = "" ->
  GetNext (allocatorOf d (ec2.InstanceId inst)) (mergedView d inst) = None ->
  NewBlockDevice o d (Some inst) volumeID
  = ({| deviceAllocators :=
          <[ec2.InstanceId inst := allocatorOf d (ec2.InstanceId inst)]>
            (deviceAllocators d);
        attaching := attaching d |},
     Err (errTooManyVolumes (ec2.InstanceId inst))).
Proof.
  intros Ho Hp Hnext. unfold NewBlockDevice. cbn [getInstanceID].
  rewrite getDevicesInUse_merged by done.
  rewrite Hp, bool_decide_eq_false_2 by (intros Hne; by apply Hne).
  unfold allocatorOf in *.
  destruct (deviceAllocators d !! ec2.InstanceId inst) as [a|] eqn:Ha;
    simpl in *; rewrite Hnext; [|done].
  by rewrite insert_id.
Qed.

Lemma attachingOf_insert d nodeID (m : gmap string string)
    (allocators : gmap string A) :
  attachingOf {| deviceAllocators := allocators;
                 attaching := <[nodeID := m]> (attaching d) |} nodeID = m.
Proof. unfold attachingOf. simpl. by rewrite lookup_insert_eq. Qed.

Lemma attachingOf_insert_ne d nodeID n (m : gmap string string)
    (allocators : gmap string A) :
  n ≠ nodeID ->
  attachingOf {| deviceAllocators := allocators;
                 attaching := <[nodeID := m]> (attaching d) |} n
  = attachingOf d n.
Proof. intros. unfold attachingOf. simpl. by rewrite lookup_insert_ne. Qed.

End NewBlockDevice_facts.

(** ** release, Taint and Release *)

Section release_facts.
Context {A : Type}.
Implicit Types (d : blockDeviceManager A) (device : BlockDevice).

Lemma release_not_in_progress d device inst :
  Instance device = Some inst ->
  attachingOf d (ec2.InstanceId inst) !! Path device = None ->
  release d device = (d, Some (errNotInProgress (VolumeID device))).
Proof.
  intros Hi Hlook. unfold release. rewrite Hi. cbn [getInstanceID].
  by rewrite Hlook.
Qed.

Lemma release_different_volume d device inst existingVolumeID :
  Instance device = Some inst ->
  attachingOf d (ec2.InstanceId inst) !! Path device = Some existingVolumeID ->
  VolumeID device ≠ existingVolumeID ->
  release d device
  = (d, Some (errDifferentVolume (Path device) (VolumeID device)
                                 existingVolumeID)).
Proof.
  intros Hi Hlook Hne. unfold release. rewrite Hi. cbn [getInstanceID].
  rewrite Hlook. by rewrite bool_decide_eq_true_2.
Qed.

Lemma release_deletes d device inst :
  Instance device = Some inst ->
  attachingOf d (ec2.InstanceId inst) !! Path device = Some (VolumeID device) ->
  release d device
  = ({| deviceAllocators := deviceAllocators d;
        attaching :=
          <[ec2.InstanceId inst
            := delete (Path device) (attachingOf d (ec2.InstanceId inst))]>
            (attaching d) |},
     None).
Proof.
  intros Hi Hlook. unfold release. rewrite Hi. cbn [getInstanceID].
  rewrite Hlook. rewrite bool_decide_eq_false_2; [done|]. by intros Hne.
Qed.

Lemma release_failure_keeps_registry d device d' err :
  release d device = (d', Some err) -> d' = d.
Proof.
  unfold release.
  destruct (getInstanceID (Instance device)) as [nodeID|e]; [|congruence].
  destruct (attachingOf d nodeID !! Path device) as [v|]; [|congruence].
  case_bool_decide; congruence.
Qed.

Lemma release_Taint d device : release d (Taint device) = release d device.
Proof. reflexivity. Qed.

(** C3.  [release] on a device without an instance fails with the
    nil-instance error.  On a device of a node: without an in-flight entry for
    (node, path) it fails with the attach-not-in-progress error; with an
    entry that holds another volume it fails with the error that carries the
    path, the requested and the stored volume id; with a matching entry it
    returns nil and deletes that entry, leaving every other entry, every
    other node and the allocators alone.  Whenever it fails, the registry it
    returns is the one it was given. *)
Theorem release_outcomes d device :
  (Instance device = None -> release d device = (d, Some errNilInstance))
  /\ (forall inst,
        Instance device = Some inst ->
        (attachingOf d (ec2.InstanceId inst) !! Path device = None ->
         release d device = (d, Some (errNotInProgress (VolumeID device))))
        /\ (forall existingVolumeID,
              attachingOf d (ec2.InstanceId inst) !! Path device
              = Some existingVolumeID ->
              VolumeID device ≠ existingVolumeID ->
              release d device
              = (d, Some (errDifferentVolume (Path device) (VolumeID device)
                                             existingVolumeID)))
        /\ (attachingOf d (ec2.InstanceId inst) !! Path device
            = Some (VolumeID device) ->
            exists d',
              release d device = (d', None)
              /\ attachingOf d' (ec2.InstanceId inst)
                 = delete (Path device) (attachingOf d (ec2.InstanceId inst))
              /\ attachingOf d' (ec2.InstanceId inst) !! Path device = None
              /\ (forall n, n ≠ ec2.InstanceId inst ->
                            attaching d' !! n = attaching d !! n)
              /\ deviceAllocators d' = deviceAllocators d))
  /\ (forall d' err, release d device = (d', Some err) -> d' = d).
Proof.
  split; [|split].
  - intros Hi. unfold release. by rewrite Hi.
  - intros inst Hi. split; [|split].
    + by apply release_not_in_progress.
    + intros. by eapply release_different_volume.
    + intros Hlook. eexists. split; [by apply release_deletes|].
      rewrite attachingOf_insert. repeat split.
      * apply lookup_delete_eq.
      * intros n Hn. simpl. by rewrite lookup_insert_ne.
  - intros d' err. apply release_failure_keeps_registry.
Qed.

(** C9.  Once tainted, [Release(false)] returns the registry untouched, so
    an in-flight entry of the device stays where it is, while
    [Release(true)] runs [release] as for the untainted device and removes a
    matching entry; on a device that was never tainted, [Release(false)]
    runs [release] and removes a matching entry.  Devices come out of
    [newBlockDevice] untainted. *)
Theorem Release_after_Taint d device :
  Release d (Taint device) false = d
  /\ Release d (Taint device) true = fst (release d device)
  /\ (isTainted device = false ->
      Release d device false = fst (release d device))
  /\ (forall inst,
        Instance device = Some inst ->
        attachingOf d (ec2.InstanceId inst) !! Path device
        = Some (VolumeID device) ->
        attachingOf (Release d (Taint device) false) (ec2.InstanceId inst)
          !! Path device = Some (VolumeID device)
        /\ attachingOf (Release d (Taint device) true) (ec2.InstanceId inst)
             !! Path device = None
        /\ (isTainted device = false ->
            attachingOf (Release d device false) (ec2.InstanceId inst)
              !! Path device = None))
  /\ (forall instance volumeID path assigned,
        isTainted (newBlockDevice instance volumeID path assigned) = false).
Proof.
  split; [reflexivity|]. split; [reflexivity|].
  split; [intros Ht; unfold Release; by rewrite Ht|].
  split; [|reflexivity].
  intros inst Hi Hlook.
  assert (Hgone : attachingOf (fst (release d device)) (ec2.InstanceId inst)
                    !! Path device = None).
  { rewrite (release_deletes d device inst) by done. simpl.
    rewrite attachingOf_insert. apply lookup_delete_eq. }
  split; [exact Hlook|]. split.
  - unfold Release. simpl. by rewrite release_Taint.
  - intros Ht. unfold Release. by rewrite Ht.
Qed.

End release_facts.

(** *** The checks that compute are sound *)

Lemma notValueOf_sound (volumeID : string) (m : gmap string string) :
  notValueOf volumeID m = true -> forall k, m !! k ≠ Some volumeID.
Proof.
  unfold notValueOf. rewrite forallb_forall. intros Hall k Hk.
  apply elem_of_map_to_list, list_elem_of_In in Hk.
  specialize (Hall _ Hk). simpl in Hall.
  by rewrite String.eqb_refl in Hall.
Qed.

Lemma keysPrefixed_sound {A : Type} (d : blockDeviceManager A) :
  keysPrefixed d = true -> inFlightKeysPrefixed d.
Proof.
  unfold keysPrefixed, inFlightKeysPrefixed.
  rewrite forallb_forall. intros Hall n m Hn path v Hpath.
  apply elem_of_map_to_list, list_elem_of_In in Hn.
  specialize (Hall _ Hn). simpl in Hall.
  rewrite forallb_forall in Hall.
  apply elem_of_map_to_list, list_elem_of_In in Hpath.
  exact (Hall _ Hpath).
Qed.

(** [release] at work on [raceRegistry], where "/dev/xvdf" holds "vol-1". *)
Lemma release_outcomes_witness :
  release raceRegistry (newBlockDevice None "vol-1" "/dev/xvdf" false)
  = (raceRegistry, Some errNilInstance)
  /\ release raceRegistry
       (newBlockDevice (Some (node1 [])) "vol-2" "/dev/xvdg" false)
     = (raceRegistry, Some (errNotInProgress "vol-2"))
  /\ release raceRegistry
       (newBlockDevice (Some (node1 [])) "vol-4" "/dev/xvdf" false)
     = (raceRegistry, Some (errDifferentVolume "/dev/xvdf" "vol-4" "vol-1"))
  /\ exists d',
       release raceRegistry
         (newBlockDevice (Some (node1 [])) "vol-1" "/dev/xvdf" false)
       = (d', None)
       /\ attachingOf d' "i-1" !! "/dev/xvdf" = None.
Proof.
  split; [|split; [|split]].
  - apply (proj1 (release_outcomes raceRegistry
                    (newBlockDevice None "vol-1" "/dev/xvdf" false))).
    reflexivity.
  - apply (proj1 (proj1 (proj2 (release_outcomes raceRegistry
             (newBlockDevice (Some (node1 [])) "vol-2" "/dev/xvdg" false)))
             (node1 []) eq_refl)).
    vm_compute. reflexivity.
  - apply (proj1 (proj2 (proj1 (proj2 (release_outcomes raceRegistry
             (newBlockDevice (Some (node1 [])) "vol-4" "/dev/xvdf" false)))
             (node1 []) eq_refl)) "vol-1").
    + vm_compute. reflexivity.
    + discriminate.
  - destruct (proj2 (proj2 (proj1 (proj2 (release_outcomes raceRegistry
               (newBlockDevice (Some (node1 [])) "vol-1" "/dev/xvdf" false)))
               (node1 []) eq_refl)))
      as (d' & Hrel & _ & Hgone & _).
    + vm_compute. reflexivity.
    + exists d'. split; [exact Hrel | exact Hgone].
Defined.

(** [Release] and [Taint] at work on the device of "vol-1" in
    [raceRegistry]. *)
Lemma Release_after_Taint_witness :
  let device := newBlockDevice (Some (node1 [])) "vol-1" "/dev/xvdf" false in
  attachingOf (Release raceRegistry (Taint device) false) "i-1"
    !! "/dev/xvdf" = Some "vol-1"
  /\ attachingOf (Release raceRegistry (Taint device) true) "i-1"
       !! "/dev/xvdf" = None
  /\ attachingOf (Release raceRegistry device false) "i-1"
       !! "/dev/xvdf" = None.
Proof.
  intros device.
  destruct (proj1 (proj2 (proj2 (proj2 (Release_after_Taint raceRegistry
              device)))) (node1 []) eq_refl) as (Hkept & Hforced & Hplain).
  - vm_compute. reflexivity.
  - split; [exact Hkept|]. split; [exact Hforced|].
    apply Hplain. reflexivity.
Defined.

(** ** Reserving a volume that is not in the merged view *)

Section reserve_facts.
Context {A : Type} `{DeviceAllocator A}.
Implicit Types (d : blockDeviceManager A) (o : RangeOrder).
Implicit Types (inst : ec2.Instance).

(** C6.  For a volume that is no value of the merged view of the node,
    [NewBlockDevice] consults the allocator of the node, a new one when the
    node has none, on the merged view.  When the allocator yields a suffix,
    the call returns an untainted device for the volume with path
    [devicePreffix ++ suffix] and [IsAlreadyAssigned = false]; afterwards
    the in-flight map of the node is the old one with that path assigned to
    the volume, the allocator stored for the node is the consulted one with
    the suffix deprioritized, and the other nodes are as before.  When the
    allocator fails, the call fails with the too-many-volumes error for the
    node, the in-flight maps are as before, and the allocator stored for the
    node is the consulted one. *)
Theorem NewBlockDevice_reserves o d inst volumeID :
  valid_order o ->
  (forall k, mergedView d inst !! k ≠ Some volumeID) ->
  match GetNext (allocatorOf d (ec2.InstanceId inst)) (mergedView d inst) with
  | Some suffix =>
      exists d' device,
        NewBlockDevice o d (Some inst) volumeID = (d', Ok device)
        /\ Path device = devicePreffix ++ suffix
        /\ IsAlreadyAssigned device = false
        /\ VolumeID device = volumeID
        /\ Instance device = Some inst
        /\ isTainted device = false
        /\ attachingOf d' (ec2.InstanceId inst)
           = <[devicePreffix ++ suffix := volumeID]>
               (attachingOf d (ec2.InstanceId inst))
        /\ deviceAllocators d' !! ec2.InstanceId inst
           = Some (Deprioritize (allocatorOf d (ec2.InstanceId inst)) suffix)
        /\ (forall n, n ≠ ec2.InstanceId inst ->
                      attaching d' !! n = attaching d !! n
                      /\ deviceAllocators d' !! n = deviceAllocators d !! n)
  | None =>
      exists d',
        NewBlockDevice o d (Some inst) volumeID
        = (d', Err (errTooManyVolumes (ec2.InstanceId inst)))
        /\ attaching d' = attaching d
        /\ deviceAllocators d' !! ec2.InstanceId inst
           = Some (allocatorOf d (ec2.InstanceId inst))
  end.
Proof.
  intros Ho Hnew.
  pose proof (getPath_absent o _ _ Hnew Ho) as Hp.
  destruct (GetNext _ _) as [suffix|] eqn:Hnext.
  - eexists _, _. split; [by apply NewBlockDevice_fresh|].
    rewrite attachingOf_insert. simpl.
    rewrite lookup_insert_eq. repeat split; try done.
    + by rewrite lookup_insert_ne.
    + by rewrite lookup_insert_ne.
  - eexists. split; [by apply NewBlockDevice_exhausted|].
    simpl. by rewrite lookup_insert_eq.
Qed.

(** C7, as the code has it.  When the volume is not found and the allocator
    of the node reports exhaustion, [NewBlockDevice] fails with the error
    whose message is "too many EBS volumes attached to node " followed by
    the node id.  The in-flight maps are untouched and so is every
    allocator that existed; the one change the failed call can make is to
    store the new allocator it created for a node that had none. *)
Theorem NewBlockDevice_exhaustion o d inst volumeID :
  valid_order o ->
  getPath o (mergedView d inst) volumeID = "" ->
  GetNext (allocatorOf d (ec2.InstanceId inst)) (mergedView d inst) = None ->
  exists d',
    NewBlockDevice o d (Some inst) volumeID
    = (d', Err (errTooManyVolumes (ec2.InstanceId inst)))
    /\ (forall q, Error q (errTooManyVolumes (ec2.InstanceId inst))
                  = "too many EBS volumes attached to node "
                      ++ ec2.InstanceId inst)
    /\ attaching d' = attaching d
    /\ deviceAllocators d'
       = match deviceAllocators d !! ec2.InstanceId inst with
         | Some _ => deviceAllocators d
         | None => <[ec2.InstanceId inst := NewDeviceAllocator]>
                     (deviceAllocators d)
         end
    /\ (is_Some (deviceAllocators d !! ec2.InstanceId inst) -> d' = d).
Proof.
  intros Ho Hp Hnext.
  eexists. split; [by apply NewBlockDevice_exhausted|].
  split; [done|]. split; [done|]. simpl. unfold allocatorOf.
  destruct (deviceAllocators d !! ec2.InstanceId inst) as [a|] eqn:Ha; simpl.
  - rewrite insert_id by done. split; [done|]. intros _. by destruct d.
  - split; [done|]. by intros [? ?].
Qed.

End reserve_facts.

(** The list allocator reports exhaustion exactly when every suffix of its
    order is a key of the in-use map. *)
Lemma listGetNext_None (l : list string) (inUse : gmap string string) :
  listGetNext l inUse = None <-> Forall (fun s => is_Some (inUse !! s)) l.
Proof.
  unfold listGetNext. induction l as [|s l IH]; simpl.
  - split; [constructor | done].
  - case_bool_decide as Hs.
    + split; [done|]. intros Hall. apply Forall_cons in Hall as [[v Hv] _].
      congruence.
    + rewrite IH. split.
      * intros Hall. constructor; [|done].
        destruct (inUse !! s); [by eexists | done].
      * intros Hall. by apply Forall_cons in Hall as [_ ?].
Qed.

Lemma listGetNext_Some (l : list string) (inUse : gmap string string) s :
  listGetNext l inUse = Some s -> s ∈ l /\ inUse !! s = None.
Proof.
  unfold listGetNext. intros Hfind. apply find_some in Hfind as [Hin Hs].
  split; [by apply list_elem_of_In | by apply bool_decide_eq_true in Hs].
Qed.

(** A reservation on a new manager: "f" is confirmed in use, so the new
    volume gets "g". *)
Lemma NewBlockDevice_reserves_witness :
  let inst := node1 [("/dev/xvdf", "vol-X")] in
  let d := NewBlockDeviceManager (A := list string) in
  exists d' device,
    NewBlockDevice (H := smallAllocator) map_to_list d (Some inst) "vol-Y"
    = (d', Ok device)
    /\ Path device = "/dev/xvdg"
    /\ IsAlreadyAssigned device = false
    /\ attachingOf d' "i-1" !! "/dev/xvdg" = Some "vol-Y"
    /\ deviceAllocators d' !! "i-1" = Some ["f"; "h"; "g"].
Proof.
  intros inst d.
  assert (Hnew : notValueOf "vol-Y" (mergedView d inst) = true)
    by (vm_compute; reflexivity).
  pose proof (NewBlockDevice_reserves (H := smallAllocator) map_to_list d
                inst "vol-Y" valid_order_map_to_list
                (notValueOf_sound _ _ Hnew)) as Hw.
  assert (Hnext : GetNext (DeviceAllocator := smallAllocator)
                    (allocatorOf (H := smallAllocator) d (ec2.InstanceId inst))
                    (mergedView d inst) = Some "g")
    by (vm_compute; reflexivity).
  rewrite Hnext in Hw.
  destruct Hw as (d' & device & Hcall & Hpath & Hassigned & _ & _ & _
                  & Hatt & Halloc & _).
  exists d', device. split; [exact Hcall|]. split; [exact Hpath|].
  split; [exact Hassigned|]. split.
  - change (ec2.InstanceId inst) with "i-1" in Hatt. rewrite Hatt.
    apply lookup_insert_eq.
  - exact Halloc.
Defined.

(** Exhaustion on a new manager: the three suffixes of the pool are all
    confirmed in use. *)
Lemma NewBlockDevice_exhaustion_witness :
  let inst := node1 [("/dev/xvdf", "vol-1"); ("/dev/xvdg", "vol-2");
                     ("/dev/xvdh", "vol-3")] in
  let d := NewBlockDeviceManager (A := list string) in
  exists d',
    NewBlockDevice (H := smallAllocator) map_to_list d (Some inst) "vol-4"
    = (d', Err (errTooManyVolumes "i-1"))
    /\ (forall q, Error q (errTooManyVolumes "i-1")
                  = "too many EBS volumes attached to node i-1")
    /\ attaching d' = ∅
    /\ deviceAllocators d' = {["i-1" := smallPool]}.
Proof.
  intros inst d.
  destruct (NewBlockDevice_exhaustion (H := smallAllocator) map_to_list d
              inst "vol-4" valid_order_map_to_list)
    as (d' & Hcall & Hmsg & Hatt & Halloc & _).
  - vm_compute. reflexivity.
  - vm_compute. reflexivity.
  - exists d'. split; [exact Hcall|]. split; [exact Hmsg|].
    split; [exact Hatt|]. exact Halloc.
Defined.

(** C7, as stated, fails on a new manager whose node has every suffix of
    the pool confirmed in use: the message of the error is not the quoted
    one, and the registry returned is not the registry given, because the
    allocator created for the node has been stored. *)
Lemma exhaustion_counterexample :
  let inst := node1 [("/dev/xvdf", "vol-1"); ("/dev/xvdg", "vol-2");
                     ("/dev/xvdh", "vol-3")] in
  let d := NewBlockDeviceManager (A := list string) in
  ~ exhaustionMessage (H := smallAllocator) map_to_list d inst "vol-4"
  /\ ~ exhaustionLeavesRegistry (H := smallAllocator) map_to_list d inst
         "vol-4".
Proof.
  intros inst d.
  assert (Hcall : NewBlockDevice (H := smallAllocator) map_to_list d
                    (Some inst) "vol-4"
                  = ({| deviceAllocators := {["i-1" := smallPool]};
                        attaching := ∅ |},
                     Err (errTooManyVolumes "i-1")))
    by (vm_compute; reflexivity).
  split.
  - intros Hclaim. destruct Hclaim as (d' & err & Heq & Hmsg);
      [vm_compute; reflexivity | vm_compute; reflexivity |].
    rewrite Hcall in Heq. injection Heq as _ <-.
    specialize (Hmsg id). discriminate Hmsg.
  - intros Hclaim. destruct Hclaim as (err & Heq);
      [vm_compute; reflexivity | vm_compute; reflexivity |].
    rewrite Hcall in Heq.
    apply (f_equal (fun r => deviceAllocators (fst r) !! "i-1")) in Heq.
    vm_compute in Heq. discriminate Heq.
Defined.

(** ** Reserving a volume that is in the merged view *)

Section idempotence.
Context {A : Type} `{DeviceAllocator A}.
Implicit Types (d : blockDeviceManager A) (o : RangeOrder).
Implicit Types (inst : ec2.Instance).

Lemma mergedView_reserved d inst path volumeID (allocators : gmap string A) :
  mergedView {| deviceAllocators := allocators;
                attaching :=
                  <[ec2.InstanceId inst
                    := <[path := volumeID]>
                         (attachingOf d (ec2.InstanceId inst))]>
                    (attaching d) |} inst
  = <[path := volumeID]> (mergedView d inst).
Proof.
  unfold mergedView. rewrite attachingOf_insert. by rewrite insert_union_l.
Qed.

Lemma getPath_empty_absent o d inst volumeID :
  valid_order o ->
  mergedView d inst !! "" ≠ Some volumeID ->
  getPath o (mergedView d inst) volumeID = "" ->
  forall k, mergedView d inst !! k ≠ Some volumeID.
Proof.
  intros Ho Hempty Hp k Hk.
  apply Hempty. rewrite <- Hp at 1. by eapply getPath_present.
Qed.

Lemma devicePreffix_nonempty suffix : devicePreffix ++ suffix ≠ "".
Proof. discriminate. Qed.

Lemma devicePreffix_HasPrefix suffix :
  HasPrefix (devicePreffix ++ suffix) devicePreffix = true.
Proof. reflexivity. Qed.

(** C2, as the code has it.  Provided the empty key does not hold the
    volume: when the volume is a value of the merged view, [NewBlockDevice]
    returns a non-empty key that holds it, marked as already assigned, and
    returns the registry unchanged, allocators included, and it does so
    whatever allocator is installed, none being consulted; and when at most
    one key of the merged view holds the volume, a reservation that
    succeeds is followed by a second one, under any iteration order, that
    returns the same path, marked as already assigned, and no longer
    changes the registry. *)
Theorem NewBlockDevice_idempotent o1 o2 d inst volumeID :
  valid_order o1 -> valid_order o2 ->
  mergedView d inst !! "" ≠ Some volumeID ->
  ((exists k, mergedView d inst !! k = Some volumeID) ->
   exists path,
     path ≠ ""
     /\ mergedView d inst !! path = Some volumeID
     /\ forall allocator : DeviceAllocator A,
          NewBlockDevice (H := allocator) o1 d (Some inst) volumeID
          = (d, Ok (newBlockDevice (Some inst) volumeID path true)))
  /\ ((forall k k', mergedView d inst !! k = Some volumeID ->
                    mergedView d inst !! k' = Some volumeID -> k = k') ->
      forall d1 device1,
        NewBlockDevice o1 d (Some inst) volumeID = (d1, Ok device1) ->
        NewBlockDevice o2 d1 (Some inst) volumeID
        = (d1, Ok (newBlockDevice (Some inst) volumeID (Path device1) true))).
Proof.
  intros Ho1 Ho2 Hempty. split.
  - intros [k Hk].
    pose proof (getPath_present o1 _ _ _ Ho1 Hk) as Hfound.
    assert (Hne : getPath o1 (mergedView d inst) volumeID ≠ "")
      by (intros Heq; rewrite Heq in Hfound; done).
    eexists. split; [exact Hne|]. split; [exact Hfound|].
    intros allocator. by apply NewBlockDevice_existing.
  - intros Huniq d1 device1 Hcall.
    destruct (decide (getPath o1 (mergedView d inst) volumeID = ""))
      as [Hp|Hp].
    + pose proof (getPath_empty_absent o1 d inst volumeID Ho1 Hempty Hp)
        as Habsent.
      destruct (GetNext (allocatorOf d (ec2.InstanceId inst))
                        (mergedView d inst)) as [suffix|] eqn:Hnext.
      * rewrite (NewBlockDevice_fresh o1 d inst volumeID suffix) in Hcall
          by done.
        injection Hcall as <- <-. cbn [Path newBlockDevice].
        set (d1 := {| deviceAllocators := _; attaching := _ |}).
        assert (Hview : mergedView d1 inst
                        = <[devicePreffix ++ suffix := volumeID]>
                            (mergedView d inst))
          by apply mergedView_reserved.
        assert (Hp2 : getPath o2 (mergedView d1 inst) volumeID
                      = devicePreffix ++ suffix).
        { apply getPath_unique; [done| |].
          - rewrite Hview. apply lookup_insert_eq.
          - intros k'. rewrite Hview.
            destruct (decide (devicePreffix ++ suffix = k')) as [|Hk'];
              [done|].
            rewrite lookup_insert_ne by done. intros Hk.
            by apply Habsent in Hk. }
        rewrite (NewBlockDevice_existing o2 d1 inst volumeID Ho2);
          rewrite Hp2; [done | apply devicePreffix_nonempty].
      * rewrite (NewBlockDevice_exhausted o1 d inst volumeID) in Hcall
          by done.
        discriminate Hcall.
    + rewrite (NewBlockDevice_existing o1 d inst volumeID Ho1 Hp) in Hcall.
      injection Hcall as <- <-. cbn [Path newBlockDevice].
      pose proof (getPath_found o1 _ _ Ho1 Hp) as Hfound.
      assert (Hp2 : getPath o2 (mergedView d inst) volumeID
                    = getPath o1 (mergedView d inst) volumeID).
      { apply getPath_unique; [done | done |].
        intros k' Hk'. by apply Huniq. }
      rewrite (NewBlockDevice_existing o2 d inst volumeID Ho2);
        rewrite Hp2; done.
Qed.

End idempotence.

(** The confirmed mapping "f" of "vol-X", with nothing in flight: the
    reservation returns the key that holds the volume, twice. *)
Lemma NewBlockDevice_idempotent_witness :
  let inst := node1 [("/dev/xvdf", "vol-X")] in
  let d := NewBlockDeviceManager (A := list string) in
  (exists path,
     path ≠ ""
     /\ mergedView d inst !! path = Some "vol-X"
     /\ forall allocator : DeviceAllocator (list string),
          NewBlockDevice (H := allocator) map_to_list d (Some inst) "vol-X"
          = (d, Ok (newBlockDevice (Some inst) "vol-X" path true)))
  /\ NewBlockDevice (H := smallAllocator) map_to_list d (Some inst) "vol-X"
     = (d, Ok (newBlockDevice (Some inst) "vol-X" "f" true)).
Proof.
  intros inst d.
  assert (Hview : mergedView d inst = {["f" := "vol-X"]})
    by (vm_compute; reflexivity).
  destruct (NewBlockDevice_idempotent (H := smallAllocator)
              map_to_list map_to_list d inst "vol-X"
              valid_order_map_to_list valid_order_map_to_list)
    as [Hfirst Hsecond].
  - rewrite Hview. vm_compute. discriminate.
  - split.
    + apply Hfirst. exists "f". rewrite Hview. reflexivity.
    + apply (Hsecond
               ltac:(rewrite Hview; intros k k' Hk Hk';
                     apply lookup_singleton_Some in Hk as [<- _];
                     apply lookup_singleton_Some in Hk' as [<- _];
                     reflexivity)
               d (newBlockDevice (Some inst) "vol-X" "f" true)).
      vm_compute. reflexivity.
Defined.

(** C2, as stated, fails for a volume that the instance reports under the
    device name "/dev/xvd": the key left after stripping the prefix is the
    empty string, which [NewBlockDevice] reads as "not found", so it
    allocates a path and returns it with [IsAlreadyAssigned = false]. *)
Lemma idempotence_counterexample :
  ~ reserveIsIdempotent (H := smallAllocator)
      (NewBlockDeviceManager (A := list string))
      (node1 [("/dev/xvd", "vol-X")]) "vol-X".
Proof.
  intros Hclaim.
  destruct (Hclaim map_to_list map_to_list
              valid_order_map_to_list valid_order_map_to_list)
    as [Hfirst _].
  destruct Hfirst as (path & _ & Hcall).
  - exists "". vm_compute. reflexivity.
  - apply (f_equal (fun r => match snd r with
                             | Ok device => IsAlreadyAssigned device
                             | Err _ => true
                             end)) in Hcall.
    vm_compute in Hcall. discriminate Hcall.
Defined.

Lemma valid_order_reverseOrder : valid_order reverseOrder.
Proof. intros m. unfold reverseOrder. apply reverse_Permutation. Qed.

(** Why two reservations in a row are only promised the same path when a
    single key holds the volume: once EC2 reports "vol-X" at "/dev/xvdf"
    while its reservation is still in flight, two keys of the merged view
    hold the volume, and the path returned depends on the order in which
    the map is visited. *)
Example reserve_twice_depends_on_order :
  let '(d, _) :=
    NewBlockDevice (H := smallAllocator) map_to_list NewBlockDeviceManager
                   (Some (node1 [])) "vol-X" in
  let inst := node1 [("/dev/xvdf", "vol-X")] in
  NewBlockDevice (H := smallAllocator) map_to_list d (Some inst) "vol-X"
  = (d, Ok (newBlockDevice (Some inst) "vol-X" "/dev/xvdf" true))
  /\ NewBlockDevice (H := smallAllocator) reverseOrder d (Some inst) "vol-X"
     = (d, Ok (newBlockDevice (Some inst) "vol-X" "f" true)).
Proof. vm_compute. split; reflexivity. Qed.

(** ** The two key formats of the merged view *)

Lemma deviceSuffix_xvdf : deviceSuffix "/dev/xvdf" = "f".
Proof. reflexivity. Qed.

Lemma deviceSuffix_sdf : deviceSuffix "/dev/sdf" = "f".
Proof. reflexivity. Qed.

Section confirmed_keys.
Implicit Types (inst : ec2.Instance) (l : list ec2.InstanceBlockDeviceMapping).

Lemma assign_lookup_inv l (base : gmap string string) k v :
  foldl assignMapping base l !! k = Some v ->
  base !! k = Some v
  \/ exists blockDevice,
       blockDevice ∈ l
       /\ deviceSuffix (ec2.DeviceName blockDevice) = k
       /\ ec2.VolumeId blockDevice = v.
Proof.
  revert base. induction l as [|a l IH]; intros base; simpl; [by left|].
  intros Hk. apply IH in Hk as [Hk|(b & Hb & Hs & Hv)].
  - unfold assignMapping in Hk.
    destruct (decide (deviceSuffix (ec2.DeviceName a) = k)) as [Heq|Hne].
    + rewrite Heq, lookup_insert_eq in Hk. injection Hk as Hv.
      right. exists a. split; [by left | done].
    + rewrite lookup_insert_ne in Hk by done. by left.
  - right. exists b. split; [by right | done].
Qed.

Lemma assign_lookup_all l (base : gmap string string) k v :
  (exists blockDevice,
     blockDevice ∈ l /\ deviceSuffix (ec2.DeviceName blockDevice) = k) ->
  (forall blockDevice,
     blockDevice ∈ l -> deviceSuffix (ec2.DeviceName blockDevice) = k ->
     ec2.VolumeId blockDevice = v) ->
  foldl assignMapping base l !! k = Some v.
Proof.
  revert base. induction l as [|a l IH] using rev_ind; intros base.
  - intros (b & Hb & _). by apply elem_of_nil in Hb.
  - intros (b & Hb & Hs) Hall. rewrite foldl_app. simpl.
    unfold assignMapping at 1.
    destruct (decide (deviceSuffix (ec2.DeviceName a) = k)) as [Heq|Hne].
    + rewrite Heq, lookup_insert_eq. f_equal. apply Hall; [|done].
      apply elem_of_app. right. by left.
    + rewrite lookup_insert_ne by done. apply IH.
      * apply elem_of_app in Hb as [Hb|Hb]; [by exists b|].
        apply list_elem_of_singleton in Hb. by subst b.
      * intros b' Hb' Hs'. apply Hall; [|done]. apply elem_of_app. by left.
Qed.

Lemma confirmedMappings_key inst k v :
  confirmedMappings inst !! k = Some v ->
  exists blockDevice,
    blockDevice ∈ ec2.BlockDeviceMappings inst
    /\ k = deviceSuffix (ec2.DeviceName blockDevice)
    /\ v = ec2.VolumeId blockDevice.
Proof.
  intros Hk. apply assign_lookup_inv in Hk as [Hk|(b & Hb & Hs & Hv)].
  - by rewrite lookup_empty in Hk.
  - by exists b.
Qed.

Lemma confirmedMappings_attachedOnlyAt inst name volumeID :
  attachedOnlyAt inst name volumeID ->
  confirmedMappings inst !! deviceSuffix name = Some volumeID
  /\ forall k, confirmedMappings inst !! k = Some volumeID ->
               k = deviceSuffix name.
Proof.
  intros [Hin Honly]. split.
  - apply assign_lookup_all.
    + by eexists.
    + intros b Hb Hs. rewrite (Honly b Hb); [done | by right].
  - intros k Hk. apply confirmedMappings_key in Hk as (b & Hb & -> & Hv).
    rewrite (Honly b Hb); [done | by left].
Qed.

End confirmed_keys.

Section key_formats.
Context {A : Type} `{DeviceAllocator A}.
Implicit Types (d : blockDeviceManager A) (o : RangeOrder).
Implicit Types (inst : ec2.Instance).

Lemma GetBlockDevice_found o d inst volumeID :
  valid_order o ->
  getPath o (mergedView d inst) volumeID ≠ "" ->
  GetBlockDevice o d (Some inst) volumeID
  = Ok (newBlockDevice (Some inst) volumeID
          (getPath o (mergedView d inst) volumeID) true).
Proof.
  intros Ho Hp. unfold GetBlockDevice. cbn [getInstanceID].
  rewrite getDevicesInUse_merged by done.
  by rewrite bool_decide_eq_true_2.
Qed.

Lemma GetBlockDevice_not_found o d inst volumeID :
  valid_order o ->
  getPath o (mergedView d inst) volumeID = "" ->
  GetBlockDevice o d (Some inst) volumeID
  = Ok (newBlockDevice (Some inst) volumeID "" false).
Proof.
  intros Ho Hp. unfold GetBlockDevice. cbn [getInstanceID].
  rewrite getDevicesInUse_merged by done.
  rewrite Hp. by rewrite bool_decide_eq_false_2 by (intros Hne; by apply Hne).
Qed.

(** *** In-flight keys are prefixed paths *)

Lemma inFlightKeysPrefixed_attachingOf d nodeID path :
  inFlightKeysPrefixed d ->
  is_Some (attachingOf d nodeID !! path) ->
  HasPrefix path devicePreffix = true.
Proof.
  intros Hinv [v Hv]. unfold attachingOf in Hv.
  destruct (attaching d !! nodeID) as [m|] eqn:Hm; simpl in Hv.
  - exact (Hinv nodeID m Hm path v Hv).
  - by rewrite lookup_empty in Hv.
Qed.

Lemma inFlightKeysPrefixed_of_attachingOf d :
  (forall nodeID path,
     is_Some (attachingOf d nodeID !! path) ->
     HasPrefix path devicePreffix = true) ->
  inFlightKeysPrefixed d.
Proof.
  intros Hall nodeID m Hm path v Hv. apply (Hall nodeID).
  unfold attachingOf. rewrite Hm. simpl. by exists v.
Qed.

Lemma inFlightKeysPrefixed_new :
  inFlightKeysPrefixed (NewBlockDeviceManager (A := A)).
Proof. apply map_Forall_empty. Qed.

Lemma inFlightKeysPrefixed_NewBlockDevice o d instance volumeID :
  inFlightKeysPrefixed d ->
  inFlightKeysPrefixed (fst (NewBlockDevice o d instance volumeID)).
Proof.
  intros Hinv. unfold NewBlockDevice.
  destruct instance as [inst|]; cbn [getInstanceID]; [|done].
  unfold getDevicesInUse. cbv zeta.
  case_bool_decide; [done|].
  destruct (deviceAllocators d !! ec2.InstanceId inst) as [a|];
    destruct (GetNext _ _) as [suffix|]; simpl; try done.
  all: apply inFlightKeysPrefixed_of_attachingOf; intros nodeID path Hsome.
  all: destruct (decide (nodeID = ec2.InstanceId inst)) as [->|Hn].
  all: try (rewrite attachingOf_insert in Hsome;
            destruct (decide (devicePreffix ++ suffix = path)) as [<-|Hp];
            [ apply devicePreffix_HasPrefix
            | rewrite lookup_insert_ne in Hsome by done;
              by eapply inFlightKeysPrefixed_attachingOf ]).
  all: rewrite attachingOf_insert_ne in Hsome by done.
  all: by eapply inFlightKeysPrefixed_attachingOf.
Qed.

Lemma inFlightKeysPrefixed_release d device :
  inFlightKeysPrefixed d ->
  inFlightKeysPrefixed (fst (release d device)).
Proof.
  intros Hinv. unfold release.
  destruct (getInstanceID (Instance device)) as [nodeID|]; [|done].
  destruct (attachingOf d nodeID !! Path device) as [v|] eqn:Hv; [|done].
  case_bool_decide; [done|]. simpl.
  apply inFlightKeysPrefixed_of_attachingOf. intros n path Hsome.
  destruct (decide (n = nodeID)) as [->|Hn].
  - rewrite attachingOf_insert in Hsome.
    destruct (decide (Path device = path)) as [<-|Hp].
    + rewrite lookup_delete_eq in Hsome. by destruct Hsome.
    + rewrite lookup_delete_ne in Hsome by done.
      by eapply inFlightKeysPrefixed_attachingOf.
  - rewrite attachingOf_insert_ne in Hsome by done.
    by eapply inFlightKeysPrefixed_attachingOf.
Qed.

Lemma reachable_inFlightKeysPrefixed d :
  reachable d -> inFlightKeysPrefixed d.
Proof.
  induction 1.
  - apply inFlightKeysPrefixed_new.
  - by apply inFlightKeysPrefixed_NewBlockDevice.
  - by apply inFlightKeysPrefixed_release.
Qed.

End key_formats.

Section key_formats_theorem.
Context {A : Type} `{DeviceAllocator A}.
Implicit Types (d : blockDeviceManager A) (o : RangeOrder).
Implicit Types (inst : ec2.Instance).

Lemma NewBlockDevice_unassigned_path o d inst volumeID d' device :
  valid_order o ->
  NewBlockDevice o d (Some inst) volumeID = (d', Ok device) ->
  IsAlreadyAssigned device = false ->
  exists suffix, Path device = devicePreffix ++ suffix.
Proof.
  intros Ho Hcall Hassigned.
  destruct (decide (getPath o (mergedView d inst) volumeID = "")) as [Hp|Hp].
  - destruct (GetNext (allocatorOf d (ec2.InstanceId inst))
                      (mergedView d inst)) as [suffix|] eqn:Hnext.
    + rewrite (NewBlockDevice_fresh o d inst volumeID suffix) in Hcall by done.
      injection Hcall as _ <-. by exists suffix.
    + rewrite (NewBlockDevice_exhausted o d inst volumeID) in Hcall by done.
      discriminate Hcall.
  - rewrite (NewBlockDevice_existing o d inst volumeID Ho Hp) in Hcall.
    injection Hcall as _ <-. discriminate Hassigned.
Qed.

(** C10.  The map that [getDevicesInUse] hands to [getPath] and to the
    allocator is the in-flight map of the node laid over the confirmed
    mappings; the keys of the confirmed mappings are device names with the
    prefix "/dev/sd" or "/dev/xvd" stripped, the keys of the in-flight map
    are paths that start with "/dev/xvd".  So, for a volume that EC2 reports
    at "/dev/xvdf" or at "/dev/sdf" (and only there) and that has no
    in-flight entry, [NewBlockDevice] and [GetBlockDevice] both return the
    device with path "f", which does not start with the device prefix,
    whereas a device that [NewBlockDevice] returns as not yet assigned has
    a path of the form [devicePreffix ++ suffix]. *)
Theorem confirmed_device_has_bare_suffix o d inst name volumeID :
  valid_order o ->
  inFlightKeysPrefixed d ->
  name = "/dev/xvdf" \/ name = "/dev/sdf" ->
  attachedOnlyAt inst name volumeID ->
  (forall path,
     attachingOf d (ec2.InstanceId inst) !! path ≠ Some volumeID) ->
  getDevicesInUse o d inst (ec2.InstanceId inst)
  = Ok (attachingOf d (ec2.InstanceId inst) ∪ confirmedMappings inst)
  /\ (forall k,
        is_Some (confirmedMappings inst !! k) ->
        exists blockDevice,
          blockDevice ∈ ec2.BlockDeviceMappings inst
          /\ k = deviceSuffix (ec2.DeviceName blockDevice))
  /\ confirmedMappings inst !! "f" = Some volumeID
  /\ (forall path,
        is_Some (attachingOf d (ec2.InstanceId inst) !! path) ->
        HasPrefix path devicePreffix = true)
  /\ NewBlockDevice o d (Some inst) volumeID
     = (d, Ok (newBlockDevice (Some inst) volumeID "f" true))
  /\ GetBlockDevice o d (Some inst) volumeID
     = Ok (newBlockDevice (Some inst) volumeID "f" true)
  /\ HasPrefix "f" devicePreffix = false
  /\ (forall other d' device,
        NewBlockDevice o d (Some inst) other = (d', Ok device) ->
        IsAlreadyAssigned device = false ->
        exists suffix, Path device = devicePreffix ++ suffix).
Proof.
  intros Ho Hinv Hname Hat Hnoflight.
  assert (Hsuffix : deviceSuffix name = "f") by (by destruct Hname as [->| ->]).
  apply confirmedMappings_attachedOnlyAt in Hat as [Hf Honly].
  rewrite Hsuffix in Hf, Honly.
  assert (Hflight : forall path,
             is_Some (attachingOf d (ec2.InstanceId inst) !! path) ->
             HasPrefix path devicePreffix = true)
    by (intros path; by apply inFlightKeysPrefixed_attachingOf).
  assert (Hmerged : mergedView d inst !! "f" = Some volumeID).
  { unfold mergedView. rewrite lookup_union_r; [done|].
    destruct (attachingOf d (ec2.InstanceId inst) !! "f") as [v|] eqn:Hv;
      [|done].
    by specialize (Hflight "f" (mk_is_Some _ _ Hv)). }
  assert (Hp : getPath o (mergedView d inst) volumeID = "f").
  { apply getPath_unique; [done | done |].
    intros k Hk. unfold mergedView in Hk.
    apply lookup_union_Some_raw in Hk as [Hk|[_ Hk]].
    - by apply Hnoflight in Hk.
    - by apply Honly. }
  split; [by apply getDevicesInUse_merged|].
  split.
  { intros k [v Hk]. apply confirmedMappings_key in Hk as (b & Hb & Hk & _).
    by exists b. }
  split; [done|]. split; [done|].
  split; [rewrite <- Hp; apply NewBlockDevice_existing; by rewrite ?Hp|].
  split; [rewrite <- Hp; apply GetBlockDevice_found; by rewrite ?Hp|].
  split; [reflexivity|].
  intros other d' device. by apply NewBlockDevice_unassigned_path.
Qed.

End key_formats_theorem.

(** The two formats side by side: in [raceRegistry] the in-flight key of
    "vol-1" is "/dev/xvdf"; for an instance that reports "vol-X" at
    "/dev/sdf" the confirmed key is "f", and that is the path returned. *)
Lemma confirmed_device_has_bare_suffix_witness :
  let inst := node1 [("/dev/sdf", "vol-X")] in
  mergedView raceRegistry inst !! "/dev/xvdf" = Some "vol-1"
  /\ mergedView raceRegistry inst !! "f" = Some "vol-X"
  /\ NewBlockDevice (H := smallAllocator) map_to_list raceRegistry
       (Some inst) "vol-X"
     = (raceRegistry, Ok (newBlockDevice (Some inst) "vol-X" "f" true))
  /\ GetBlockDevice map_to_list raceRegistry (Some inst) "vol-X"
     = Ok (newBlockDevice (Some inst) "vol-X" "f" true).
Proof.
  intros inst.
  assert (Hprefixed : keysPrefixed raceRegistry = true)
    by (vm_compute; reflexivity).
  assert (Hnoflight : notValueOf "vol-X" (attachingOf raceRegistry "i-1")
                      = true)
    by (vm_compute; reflexivity).
  assert (Hat : attachedOnlyAt inst "/dev/sdf" "vol-X").
  { split; [by left|]. intros b Hb _.
    by apply list_elem_of_singleton in Hb. }
  destruct (confirmed_device_has_bare_suffix (H := smallAllocator)
              map_to_list raceRegistry inst "/dev/sdf" "vol-X"
              valid_order_map_to_list (keysPrefixed_sound _ Hprefixed)
              (or_intror eq_refl) Hat (notValueOf_sound _ _ Hnoflight))
    as (_ & _ & _ & _ & Hnew & Hget & _).
  split; [vm_compute; reflexivity|]. split; [vm_compute; reflexivity|].
  split; [exact Hnew | exact Hget].
Defined.

(** ** Reservations in flight and the allocator *)

(** The list allocator looks its suffixes up as keys, so in-flight entries,
    whose keys are prefixed paths, do not count as in use for it. *)
Lemma listGetNext_ignores_in_flight (l : list string)
    (inFlight confirmed : gmap string string) :
  Forall (fun s => inFlight !! s = None) l ->
  listGetNext l (inFlight ∪ confirmed) = listGetNext l confirmed.
Proof.
  unfold listGetNext. induction 1 as [|s l Hs _ IH]; simpl; [done|].
  rewrite lookup_union_r by done. by rewrite IH.
Qed.

Section reissue.
Variable pool : list string.
Implicit Types (d : blockDeviceManager (list string)) (o : RangeOrder).
Implicit Types (inst : ec2.Instance).

(** With the list allocator, take a registry whose in-flight keys are
    prefixed paths and whose allocator for the node holds suffixes that are
    not such paths.  Let [suffix] be the first suffix, in the order of that
    allocator, that is not a key of the confirmed mappings, and let the
    reservation of [v1] on [devicePreffix ++ suffix] be outstanding.  Then
    [v1] differs from any volume [v2] that is not in the merged view, yet
    reserving [v2] succeeds with that same path, as a new assignment, and
    overwrites the in-flight entry of [v1]; and reserving [v1] again, if
    that path is the only key holding it, returns that path as well. *)
Lemma reissue_step o d inst v1 v2 suffix :
  valid_order o ->
  inFlightKeysPrefixed d ->
  Forall (fun s => HasPrefix s devicePreffix = false)
         (allocatorOf (H := listAllocator pool) d (ec2.InstanceId inst)) ->
  listGetNext (allocatorOf (H := listAllocator pool) d (ec2.InstanceId inst))
              (confirmedMappings inst) = Some suffix ->
  attachingOf d (ec2.InstanceId inst) !! (devicePreffix ++ suffix) = Some v1 ->
  (forall k, mergedView d inst !! k ≠ Some v2) ->
  v1 ≠ v2
  /\ (exists d',
        NewBlockDevice (H := listAllocator pool) o d (Some inst) v2
        = (d', Ok (newBlockDevice (Some inst) v2 (devicePreffix ++ suffix)
                     false))
        /\ attachingOf d' (ec2.InstanceId inst) !! (devicePreffix ++ suffix)
           = Some v2)
  /\ ((forall k, mergedView d inst !! k = Some v1 ->
                 k = devicePreffix ++ suffix) ->
      NewBlockDevice (H := listAllocator pool) o d (Some inst) v1
      = (d, Ok (newBlockDevice (Some inst) v1 (devicePreffix ++ suffix)
                  true))).
Proof.
  intros Ho Hinv Hpool Hnext Hv1 Hv2.
  assert (Hmerged : mergedView d inst !! (devicePreffix ++ suffix) = Some v1)
    by (unfold mergedView; by apply lookup_union_Some_l).
  assert (Hnext' : GetNext (DeviceAllocator := listAllocator pool)
                     (allocatorOf (H := listAllocator pool) d
                                  (ec2.InstanceId inst))
                     (mergedView d inst) = Some suffix).
  { simpl. unfold mergedView.
    rewrite listGetNext_ignores_in_flight; [done|].
    eapply Forall_impl; [exact Hpool|]. intros s Hs. cbv beta in Hs.
    destruct (attachingOf d (ec2.InstanceId inst) !! s) as [v|] eqn:Hv;
      [|done].
    pose proof (inFlightKeysPrefixed_attachingOf d _ s Hinv
                  (mk_is_Some _ _ Hv)) as Hprefixed.
    congruence. }
  split; [|split].
  - intros ->. by apply Hv2 in Hmerged.
  - eexists. split.
    + apply (NewBlockDevice_fresh (H := listAllocator pool)); [done| |done].
      by apply getPath_absent.
    + rewrite attachingOf_insert. apply lookup_insert_eq.
  - intros Honly.
    assert (Hp : getPath o (mergedView d inst) v1 = devicePreffix ++ suffix)
      by (by apply getPath_unique).
    rewrite <- Hp.
    apply (NewBlockDevice_existing (H := listAllocator pool)); [done|].
    rewrite Hp. apply devicePreffix_nonempty.
Qed.

End reissue.

(** *** Once around the pool *)

Lemma filter_ne_fresh (s : string) (l : list string) :
  s ∉ l -> filter (fun x => x ≠ s) l = l.
Proof.
  induction l as [|x l IH]; [done|].
  intros Hs. apply not_elem_of_cons in Hs as [Hx Hs].
  rewrite filter_cons_True by done. by rewrite IH.
Qed.

Lemma filter_all {X : Type} (P : X -> Prop) `{forall x, Decision (P x)}
    (l : list X) :
  Forall P l -> filter P l = l.
Proof.
  induction 1 as [|x l Hx _ IH]; [done|].
  rewrite filter_cons_True by done. by rewrite IH.
Qed.

Lemma listDeprioritize_head (s : string) (l : list string) :
  s ∉ l -> listDeprioritize (s :: l) s = (l ++ [s])%list.
Proof.
  intros Hs. unfold listDeprioritize.
  rewrite bool_decide_eq_true_2 by (by left).
  rewrite filter_cons_False by (by intros Hne).
  by rewrite filter_ne_fresh.
Qed.

Lemma pathOf_fst (ps : list (string * string)) :
  (pathOf <$> ps).*1 = String.append devicePreffix <$> ps.*1.
Proof. by rewrite <- !list_fmap_compose. Qed.

Lemma pathOf_not_elem_of s (ps : list (string * string)) :
  s ∉ ps.*1 -> devicePreffix ++ s ∉ (pathOf <$> ps).*1.
Proof.
  intros Hs Hin. rewrite pathOf_fst in Hin.
  apply list_elem_of_fmap in Hin as (s' & Heq & Hs').
  apply (inj (String.append devicePreffix)) in Heq. by subst s'.
Qed.

Section wrap_around.
Variables (pool : list string) (o : RangeOrder) (inst : ec2.Instance).
Hypothesis Ho : valid_order o.
Hypothesis Hnone : ec2.BlockDeviceMappings inst = [].
Implicit Types (d : blockDeviceManager (list string)).
Implicit Types (ps : list (string * string)).

Lemma mergedView_unattached d :
  mergedView d inst = attachingOf d (ec2.InstanceId inst).
Proof.
  unfold mergedView, confirmedMappings. rewrite Hnone. simpl.
  by rewrite (right_id_L ∅ (∪)).
Qed.

Lemma reserve_head d s l v :
  allocatorOf (H := listAllocator pool) d (ec2.InstanceId inst) = s :: l ->
  s ∉ l ->
  HasPrefix s devicePreffix = false ->
  inFlightKeysPrefixed d ->
  (forall k, attachingOf d (ec2.InstanceId inst) !! k ≠ Some v) ->
  NewBlockDevice (H := listAllocator pool) o d (Some inst) v
  = ({| deviceAllocators :=
          <[ec2.InstanceId inst := (l ++ [s])%list]> (deviceAllocators d);
        attaching :=
          <[ec2.InstanceId inst
            := <[devicePreffix ++ s := v]>
                 (attachingOf d (ec2.InstanceId inst))]>
            (attaching d) |},
     Ok (newBlockDevice (Some inst) v (devicePreffix ++ s) false)).
Proof.
  intros Halloc Hs Hunprefixed Hinv Hv.
  rewrite (NewBlockDevice_fresh (H := listAllocator pool) o d inst v s).
  - rewrite Halloc. cbn [Deprioritize listAllocator].
    by rewrite listDeprioritize_head.
  - done.
  - apply getPath_absent; [|done]. by rewrite mergedView_unattached.
  - rewrite Halloc, mergedView_unattached.
    cbn [GetNext listAllocator]. unfold listGetNext. cbn [find].
    rewrite bool_decide_eq_true_2; [done|].
    destruct (attachingOf d (ec2.InstanceId inst) !! s) as [x|] eqn:Hx;
      [|done].
    pose proof (inFlightKeysPrefixed_attachingOf d _ s Hinv
                  (mk_is_Some _ _ Hx)) as Hprefixed.
    congruence.
Qed.

Lemma reserveAll_spec ps : forall others d,
  NoDup (ps.*1 ++ others)%list ->
  Forall (fun s => HasPrefix s devicePreffix = false) ps.*1 ->
  NoDup ps.*2 ->
  allocatorOf (H := listAllocator pool) d (ec2.InstanceId inst)
  = (ps.*1 ++ others)%list ->
  inFlightKeysPrefixed d ->
  (forall v, v ∈ ps.*2 ->
             forall k, attachingOf d (ec2.InstanceId inst) !! k ≠ Some v) ->
  allocatorOf (H := listAllocator pool)
    (reserveAll (H := listAllocator pool) o d (Some inst) ps.*2)
    (ec2.InstanceId inst)
  = (others ++ ps.*1)%list
  /\ attachingOf
       (reserveAll (H := listAllocator pool) o d (Some inst) ps.*2)
       (ec2.InstanceId inst)
     = list_to_map (pathOf <$> ps) ∪ attachingOf d (ec2.InstanceId inst).
Proof.
  induction ps as [|[s v] ps IH]; intros others d Hnd Hpool Hvols Halloc
                                          Hinv Hfresh.
  - simpl. rewrite app_nil_r. split; [done|]. by rewrite (left_id_L ∅ (∪)).
  - cbn [fmap list_fmap fst snd] in *.
    apply NoDup_cons in Hnd as [Hs Hnd].
    apply Forall_cons in Hpool as [Hunprefixed Hpool].
    apply NoDup_cons in Hvols as [Hv Hvols].
    unfold reserveAll. cbn [foldl].
    pose proof (inFlightKeysPrefixed_NewBlockDevice
                  (H := listAllocator pool) o d (Some inst) v Hinv) as Hinv1.
    assert (Hstep := reserve_head d s (ps.*1 ++ others)%list v Halloc Hs
                       Hunprefixed Hinv (Hfresh v ltac:(by left))).
    rewrite Hstep in Hinv1 |- *.
    cbn [fst] in Hinv1 |- *.
    set (d1 := {| deviceAllocators := _; attaching := _ |}) in *.
    destruct (IH (others ++ [s])%list d1) as [Hallocators Hattaching].
    + rewrite app_assoc. apply NoDup_app. split; [done|]. split.
      * intros x Hx Hx'. apply list_elem_of_singleton in Hx'. by subst x.
      * apply NoDup_singleton.
    + done.
    + done.
    + unfold allocatorOf, d1. simpl. rewrite lookup_insert_eq. simpl.
      by rewrite <- app_assoc.
    + done.
    + intros v' Hv' k. unfold d1. rewrite attachingOf_insert.
      destruct (decide (devicePreffix ++ s = k)) as [<-|Hk].
      * rewrite lookup_insert_eq. intros [= ->]. done.
      * rewrite lookup_insert_ne by done. apply Hfresh. by right.
    + fold (reserveAll (H := listAllocator pool) o d1 (Some inst) ps.*2).
      rewrite Hallocators, Hattaching. split.
      * by rewrite <- app_assoc.
      * unfold d1. rewrite attachingOf_insert.
        change (pathOf (s, v)) with (devicePreffix ++ s, v).
        rewrite list_to_map_cons, <- insert_union_l.
        rewrite insert_union_r; [done|].
        apply not_elem_of_list_to_map_1, pathOf_not_elem_of.
        intros Hin. apply Hs. apply elem_of_app. by left.
Qed.

Lemma releaseAll_spec ps : forall d,
  NoDup ps.*1 ->
  (forall r, r ∈ ps ->
             attachingOf d (ec2.InstanceId inst) !! (devicePreffix ++ fst r)
             = Some (snd r)) ->
  deviceAllocators (releaseAll d (reservedDevice (Some inst) <$> ps))
  = deviceAllocators d
  /\ forall k,
       attachingOf (releaseAll d (reservedDevice (Some inst) <$> ps))
                   (ec2.InstanceId inst) !! k
       = if decide (k ∈ (pathOf <$> ps).*1) then None
         else attachingOf d (ec2.InstanceId inst) !! k.
Proof.
  induction ps as [|[s v] ps IH]; intros d Hnd Hheld.
  - split; [done|]. intros k. by rewrite decide_False by apply not_elem_of_nil.
  - cbn [fmap list_fmap fst] in Hnd. apply NoDup_cons in Hnd as [Hs Hnd].
    unfold releaseAll. cbn [fmap list_fmap foldl].
    rewrite (release_deletes d (reservedDevice (Some inst) (s, v)) inst);
      [|done| by apply (Hheld (s, v)); left].
    cbn [fst Path VolumeID reservedDevice newBlockDevice snd].
    set (d1 := {| deviceAllocators := _; attaching := _ |}).
    destruct (IH d1 Hnd) as [Hallocators Hattaching].
    + intros r Hr. unfold d1. rewrite attachingOf_insert.
      rewrite lookup_delete_ne; [apply Hheld; by right|].
      intros Heq. apply (inj (String.append devicePreffix)) in Heq.
      apply Hs. rewrite Heq. apply list_elem_of_fmap. by exists r.
    + fold (releaseAll d1 (reservedDevice (Some inst) <$> ps)).
      split; [by rewrite Hallocators|].
      intros k. rewrite Hattaching. unfold d1. rewrite attachingOf_insert.
      cbn [fmap list_fmap pathOf fst snd].
      destruct (decide (k = devicePreffix ++ s)) as [->|Hk].
      * rewrite (decide_True (P := _ ∈ _ :: _)) by (by left).
        case_decide; [done|]. apply lookup_delete_eq.
      * rewrite lookup_delete_ne by done.
        case_decide as Hin; case_decide as Hin'; try done.
        -- exfalso. apply Hin'. by right.
        -- exfalso. apply elem_of_cons in Hin' as [?|?]; done.
Qed.

End wrap_around.

Section reachable_runs.
Context {A : Type} `{DeviceAllocator A}.
Implicit Types (d : blockDeviceManager A).

Lemma reachable_reserveAll o instance volumes : forall d,
  reachable d -> reachable (reserveAll o d instance volumes).
Proof.
  induction volumes as [|v volumes IH]; intros d Hd; [done|].
  apply IH. by apply reachable_NewBlockDevice.
Qed.

Lemma reachable_releaseAll devices : forall d,
  reachable d -> reachable (releaseAll d devices).
Proof.
  induction devices as [|device devices IH]; intros d Hd; [done|].
  apply IH. by apply reachable_release.
Qed.

Lemma reachable_wrapAround o instance reservations :
  reachable (wrapAround o instance reservations).
Proof.
  apply reachable_releaseAll, reachable_reserveAll, reachable_new.
Qed.

End reachable_runs.

(** C1 on the code.  With the list allocator over any pool of distinct
    suffixes, none of which is itself a prefixed path, and a node with
    nothing attached: reserve one volume per suffix on a new manager, then
    release every device but the first.  In the registry so reached the
    reservation of the first volume [v0] on the first suffix [s0] is the
    only one in flight and every other suffix of the pool is free.  Yet a
    request for a volume [v2] that was never seen succeeds with the path of
    [v0], as a new assignment, and overwrites the in-flight entry of [v0];
    a request for [v0] itself returns that same path.  So two requests for
    two distinct volumes, with as many suffixes free as the pool has beyond
    the first, yield one path while both reservations are outstanding. *)
Theorem outstanding_path_is_reissued (pool : list string) o inst s0 v0
    (reservations : list (string * string)) v2 :
  valid_order o ->
  ec2.BlockDeviceMappings inst = [] ->
  pool = s0 :: reservations.*1 ->
  NoDup pool ->
  Forall (fun s => HasPrefix s devicePreffix = false) pool ->
  NoDup (v0 :: reservations.*2) ->
  v2 ∉ v0 :: reservations.*2 ->
  let d := wrapAround (H := listAllocator pool) o (Some inst)
             ((s0, v0) :: reservations) in
  reachable (H := listAllocator pool) d
  /\ attachingOf d (ec2.InstanceId inst) = {[devicePreffix ++ s0 := v0]}
  /\ freeSuffixes pool d inst = reservations.*1
  /\ v0 ≠ v2
  /\ NewBlockDevice (H := listAllocator pool) o d (Some inst) v0
     = (d, Ok (newBlockDevice (Some inst) v0 (devicePreffix ++ s0) true))
  /\ exists d',
       NewBlockDevice (H := listAllocator pool) o d (Some inst) v2
       = (d', Ok (newBlockDevice (Some inst) v2 (devicePreffix ++ s0) false))
       /\ attachingOf d' (ec2.InstanceId inst) !! (devicePreffix ++ s0)
          = Some v2.
Proof.
  intros Ho Hnone Hpool Hnd Hunprefixed Hvols Hv2 d.
  assert (Hreach : reachable (H := listAllocator pool) d)
    by apply reachable_wrapAround.
  set (ps := (s0, v0) :: reservations) in *.
  assert (Hps1 : ps.*1 = pool) by (by rewrite Hpool).
  destruct (reserveAll_spec pool o inst Ho Hnone ps [] NewBlockDeviceManager)
    as [Hallocator Hattaching].
  { by rewrite app_nil_r, Hps1. }
  { by rewrite Hps1. }
  { done. }
  { by rewrite app_nil_r, Hps1. }
  { apply inFlightKeysPrefixed_new. }
  { intros v _ k. unfold attachingOf. simpl. by rewrite !lookup_empty. }
  set (dn := reserveAll (H := listAllocator pool) o NewBlockDeviceManager
               (Some inst) ps.*2) in *.
  assert (Hempty : attachingOf (NewBlockDeviceManager (A := list string))
                     (ec2.InstanceId inst) = ∅)
    by (unfold attachingOf; simpl; by rewrite lookup_empty).
  rewrite Hempty, (right_id_L ∅ (∪)) in Hattaching.
  assert (Hndps : NoDup (pathOf <$> ps).*1).
  { rewrite pathOf_fst, Hps1.
    apply (NoDup_fmap_2 (String.append devicePreffix)). done. }
  assert (Hnd' : NoDup (s0 :: reservations.*1)) by (by rewrite <- Hpool).
  apply NoDup_cons in Hnd' as [Hs0 Hrest].
  destruct (releaseAll_spec inst reservations dn Hrest)
    as [Hallocators' Hattaching'].
  { intros r Hr. rewrite Hattaching.
    apply elem_of_list_to_map_1; [done|].
    apply list_elem_of_fmap. exists r. split; [done | by right]. }
  change (releaseAll dn (reservedDevice (Some inst) <$> reservations))
    with d in Hallocators', Hattaching'.
  assert (Hmap : attachingOf d (ec2.InstanceId inst)
                 = {[devicePreffix ++ s0 := v0]}).
  { apply map_eq. intros k. rewrite Hattaching', Hattaching.
    unfold ps. cbn [fmap list_fmap].
    change (pathOf (s0, v0)) with (devicePreffix ++ s0, v0).
    rewrite list_to_map_cons.
    destruct (decide (k = devicePreffix ++ s0)) as [->|Hk].
    - rewrite decide_False by (by apply pathOf_not_elem_of).
      by rewrite lookup_insert_eq, lookup_singleton_eq.
    - rewrite lookup_singleton_ne by done.
      case_decide as Hin; [done|].
      rewrite lookup_insert_ne by done.
      by apply not_elem_of_list_to_map_1. }
  assert (Hallocator' : allocatorOf (H := listAllocator pool) d
                          (ec2.InstanceId inst) = pool).
  { unfold allocatorOf in *.
    rewrite Hallocators'. rewrite Hallocator. by rewrite Hps1. }
  assert (Hview : mergedView d inst = {[devicePreffix ++ s0 := v0]})
    by (by rewrite mergedView_unattached).
  split; [done|]. split; [done|]. split.
  - unfold freeSuffixes. rewrite Hview, Hpool.
    rewrite filter_cons_False
      by (rewrite lookup_singleton_eq; by intros [_ ?]).
    apply filter_all. apply Forall_forall. intros s Hs.
    assert (Hsu : HasPrefix s devicePreffix = false).
    { rewrite Forall_forall in Hunprefixed. apply Hunprefixed.
      rewrite Hpool. by right. }
    split; apply lookup_singleton_ne.
    + intros Heq. rewrite <- Heq in Hsu.
      by rewrite devicePreffix_HasPrefix in Hsu.
    + intros Heq. apply (inj (String.append devicePreffix)) in Heq.
      by subst s.
  - destruct (reissue_step pool o d inst v0 v2 s0 Ho)
      as (Hne & Hreissued & Hagain).
    + by apply (reachable_inFlightKeysPrefixed (H := listAllocator pool)).
    + by rewrite Hallocator'.
    + rewrite Hallocator', Hpool. unfold confirmedMappings.
      rewrite Hnone. simpl. unfold listGetNext. cbn [find].
      by rewrite bool_decide_eq_true_2 by apply lookup_empty.
    + rewrite Hmap. apply lookup_singleton_eq.
    + intros k. rewrite Hview. intros Hk.
      apply lookup_singleton_Some in Hk as [_ <-]. apply Hv2. by left.
    + split; [exact Hne|]. split; [|exact Hreissued].
      apply Hagain. intros k. rewrite Hview. intros Hk.
      by apply lookup_singleton_Some in Hk as [<- _].
Qed.

(** [raceRegistry] is one of those registries. *)
Example raceRegistry_reachable : reachable (H := smallAllocator) raceRegistry.
Proof. apply reachable_wrapAround. Qed.

(** On [raceRegistry] the node has two free suffixes, "g" and "h", and the
    reservation of "vol-1" on "/dev/xvdf" is outstanding.  Two requests, for
    "vol-1" and for the new "vol-4", both succeed, and both return
    "/dev/xvdf". *)
Lemma outstanding_path_is_reissued_witness :
  let inst := node1 [] in
  reachable (H := smallAllocator) raceRegistry
  /\ freeSuffixes smallPool raceRegistry inst = ["g"; "h"]
  /\ attachingOf raceRegistry "i-1" = {["/dev/xvdf" := "vol-1"]}
  /\ NewBlockDevice (H := smallAllocator) map_to_list raceRegistry
       (Some inst) "vol-1"
     = (raceRegistry, Ok (newBlockDevice (Some inst) "vol-1" "/dev/xvdf" true))
  /\ exists d',
       NewBlockDevice (H := smallAllocator) map_to_list raceRegistry
         (Some inst) "vol-4"
       = (d', Ok (newBlockDevice (Some inst) "vol-4" "/dev/xvdf" false))
       /\ attachingOf d' "i-1" !! "/dev/xvdf" = Some "vol-4".
Proof.
  intros inst.
  destruct (outstanding_path_is_reissued smallPool map_to_list inst
              "f" "vol-1" [("g", "vol-2"); ("h", "vol-3")] "vol-4"
              valid_order_map_to_list eq_refl eq_refl)
    as (Hreach & Hflight & Hfree & _ & Hagain & Hreissued).
  - apply (bool_decide_unpack _). vm_compute. reflexivity.
  - repeat constructor.
  - apply (bool_decide_unpack _). vm_compute. reflexivity.
  - apply (bool_decide_unpack _). vm_compute. reflexivity.
  - split; [exact Hreach|]. split; [exact Hfree|]. split; [exact Hflight|].
    split; [exact Hagain | exact Hreissued].
Defined.

(** ** Package cloud: AttachDisk and DetachDisk *)

Import cloud.

Section cloud_facts.
Context {S R W : Type} {DM : DeviceManager S R} {E : EC2 W}.
Implicit Types (c : Cloud S W) (log : list Call).

(** [AttachDisk], call by call. *)
Lemma AttachDisk_run c log volumeID nodeID :
  AttachDisk volumeID nodeID (c, log)
  = match GetDevice (dm c) nodeID volumeID with
    | (s1, Err mntErr) =>
        (Err mntErr,
         ({| dm := s1; ec2 := ec2 c |},
          (log ++ [CallGetDevice nodeID volumeID])%list))
    | (s1, Ok (mntDevice, true)) =>
        (Ok mntDevice,
         ({| dm := fst (ReleaseDevice s1 nodeID volumeID mntDevice);
             ec2 := ec2 c |},
          (log ++ [CallGetDevice nodeID volumeID;
                   CallReleaseDevice nodeID volumeID mntDevice])%list))
    | (s1, Ok (mntDevice, false)) =>
        let '(w1, resp) := AttachVolume (ec2 c) mntDevice nodeID volumeID in
        (match resp with
         | Ok _ => Ok mntDevice
         | Err err => Err (errAttach volumeID nodeID err)
         end,
         ({| dm := fst (ReleaseDevice s1 nodeID volumeID mntDevice);
             ec2 := w1 |},
          (log ++ [CallGetDevice nodeID volumeID;
                   CallAttachVolume mntDevice nodeID volumeID;
                   CallReleaseDevice nodeID volumeID mntDevice])%list))
    end.
Proof.
  unfold AttachDisk, mbind, M_bind, mret, M_ret.
  unfold dmGetDevice, ec2AttachVolume, dmReleaseDevice.
  destruct (GetDevice (dm c) nodeID volumeID)
    as [s1 [[mntDevice [|]]|mntErr]]; simpl.
  - destruct (ReleaseDevice s1 nodeID volumeID mntDevice) as [s2 r]. simpl.
    by rewrite <- app_assoc.
  - destruct (AttachVolume (ec2 c) mntDevice nodeID volumeID)
      as [w1 [u|err]]; simpl;
      destruct (ReleaseDevice s1 nodeID volumeID mntDevice) as [s2 r]; simpl;
      by rewrite <- !app_assoc.
  - done.
Qed.

(** [DetachDisk], call by call. *)
Lemma DetachDisk_run c log volumeID nodeID :
  DetachDisk volumeID nodeID (c, log)
  = match GetAssignedDevice (dm c) nodeID volumeID with
    | (s1, Err err) =>
        (Some err,
         ({| dm := s1; ec2 := ec2 c |},
          (log ++ [CallGetAssignedDevice nodeID volumeID])%list))
    | (s1, Ok mntDevice) =>
        match DetachVolume (ec2 c) nodeID volumeID with
        | (w1, Err err) =>
            (Some (errDetach volumeID nodeID err),
             ({| dm := s1; ec2 := w1 |},
              (log ++ [CallGetAssignedDevice nodeID volumeID;
                       CallDetachVolume nodeID volumeID])%list))
        | (w1, Ok _) =>
            if bool_decide (mntDevice = "") then
              (None,
               ({| dm := s1; ec2 := w1 |},
                (log ++ [CallGetAssignedDevice nodeID volumeID;
                         CallDetachVolume nodeID volumeID])%list))
            else
              (None,
               ({| dm := fst (ReleaseDevice s1 nodeID volumeID mntDevice);
                   ec2 := w1 |},
                (log ++ [CallGetAssignedDevice nodeID volumeID;
                         CallDetachVolume nodeID volumeID;
                         CallReleaseDevice nodeID volumeID mntDevice])%list))
        end
    end.
Proof.
  unfold DetachDisk, mbind, M_bind, mret, M_ret.
  unfold dmGetAssignedDevice, ec2DetachVolume, dmReleaseDevice.
  destruct (GetAssignedDevice (dm c) nodeID volumeID)
    as [s1 [mntDevice|err]]; simpl; [|done].
  destruct (DetachVolume (ec2 c) nodeID volumeID) as [w1 [u|err]]; simpl.
  - destruct (decide (mntDevice = "")) as [Hm|Hm].
    + rewrite (bool_decide_eq_false_2 (mntDevice ≠ "")) by (by intros ?).
      rewrite bool_decide_eq_true_2 by done. simpl.
      by rewrite <- app_assoc.
    + rewrite (bool_decide_eq_true_2 (mntDevice ≠ "")) by done.
      rewrite bool_decide_eq_false_2 by done. simpl.
      destruct (ReleaseDevice s1 nodeID volumeID mntDevice) as [s2 r]. simpl.
      by rewrite <- !app_assoc.
  - by rewrite <- app_assoc.
Qed.

End cloud_facts.

Lemma string_append_assoc (s1 s2 s3 : string) :
  (s1 ++ s2) ++ s3 = s1 ++ (s2 ++ s3).
Proof.
  induction s1 as [|c s1 IH]; [reflexivity|].
  change (String c ((s1 ++ s2) ++ s3) = String c (s1 ++ (s2 ++ s3))).
  by rewrite IH.
Qed.

Lemma errAttach_wraps q volumeID nodeID cause :
  exists context,
    Error q (errAttach volumeID nodeID cause) = context ++ Error q cause.
Proof.
  exists ("could not attach volume " ++ q volumeID ++ " to node "
            ++ q nodeID ++ ": ").
  cbn [Error]. by rewrite !string_append_assoc.
Qed.

Lemma errDetach_wraps q volumeID nodeID cause :
  exists context,
    Error q (errDetach volumeID nodeID cause) = context ++ Error q cause.
Proof.
  exists ("could not detach volume " ++ q volumeID ++ " from node "
            ++ q nodeID ++ ": ").
  cbn [Error]. by rewrite !string_append_assoc.
Qed.

Section registry_release.
Context {A : Type} `{DeviceAllocator A}.
Implicit Types (s : registryState A) (o : RangeOrder).

(** With the registry behind [Cloud.dm]: a device that [GetDevice] hands
    out as not yet attached is in flight afterwards, and [ReleaseDevice] on
    it removes the entry again. *)
Lemma registry_reserve_then_release o s nodeID volumeID inst s1 path :
  valid_order o ->
  instances s !! nodeID = Some inst ->
  GetDevice (DeviceManager := registryDeviceManager o) s nodeID volumeID
  = (s1, Ok (path, false)) ->
  attachingOf (registry s1) (ec2.InstanceId inst) !! path = Some volumeID
  /\ attachingOf
       (registry (fst (ReleaseDevice (DeviceManager := registryDeviceManager o)
                         s1 nodeID volumeID path)))
       (ec2.InstanceId inst)
     = delete path (attachingOf (registry s1) (ec2.InstanceId inst))
  /\ attachingOf (registry s1) (ec2.InstanceId inst)
     = <[path := volumeID]> (attachingOf (registry s) (ec2.InstanceId inst)).
Proof.
  intros Ho Hinst Hget. simpl in Hget. unfold registryGetDevice in Hget.
  rewrite Hinst in Hget.
  destruct (NewBlockDevice o (registry s) (Some inst) volumeID)
    as [d1 [device|err]] eqn:Hcall; [|by injection Hget].
  injection Hget as <- <- Hassigned.
  destruct (decide (getPath o (mergedView (registry s) inst) volumeID = ""))
    as [Hp|Hp].
  - destruct (GetNext (allocatorOf (registry s) (ec2.InstanceId inst))
                      (mergedView (registry s) inst)) as [suffix|] eqn:Hnext.
    + rewrite (NewBlockDevice_fresh o _ inst volumeID suffix) in Hcall by done.
      injection Hcall as <- <-. cbn [Path newBlockDevice registry].
      rewrite attachingOf_insert.
      split; [apply lookup_insert_eq|]. split; [|done].
      simpl. unfold registryReleaseDevice. cbn [registry instances].
      rewrite Hinst.
      rewrite (release_deletes _ _ inst); cbn [Path VolumeID newBlockDevice].
      * cbn [registry fst]. by rewrite !attachingOf_insert.
      * done.
      * rewrite attachingOf_insert. apply lookup_insert_eq.
    + rewrite (NewBlockDevice_exhausted o _ inst volumeID) in Hcall by done.
      discriminate Hcall.
  - rewrite (NewBlockDevice_existing o _ inst volumeID Ho Hp) in Hcall.
    injection Hcall as _ <-. discriminate Hassigned.
Qed.

End registry_release.

(** C5.  Whatever device manager and EC2 client sit behind [Cloud]: when
    [GetDevice] fails, [AttachDisk] returns that error and calls neither
    [AttachVolume] nor [ReleaseDevice].  When [GetDevice] succeeds,
    [ReleaseDevice] is called exactly once, as the last call, for the node,
    the volume and the device obtained, on every way out: if the device was
    already attached, [AttachVolume] is not called and the device is
    returned; otherwise the calls are [GetDevice], [AttachVolume],
    [ReleaseDevice], and the result is the device when [AttachVolume]
    succeeds and the attach error, whose message ends with the message of
    the cause, when it fails.  With the registry behind [Cloud.dm], a failed
    [AttachVolume] leaves no in-flight entry at the path that was reserved
    for the call. *)
Theorem AttachDisk_releases_reservation :
  (forall (S R W : Type) (DM : DeviceManager S R) (E : EC2 W)
          (c : Cloud S W) (log : list Call) (volumeID nodeID : string),
     let '(returned, (c', log')) := AttachDisk volumeID nodeID (c, log) in
     exists calls,
       log' = (log ++ calls)%list
       /\ match GetDevice (dm c) nodeID volumeID with
          | (_, Err mntErr) =>
              returned = Err mntErr
              /\ countOf isReleaseDevice calls = 0
              /\ countOf isAttachVolume calls = 0
          | (s1, Ok (mntDevice, alreadyAttached)) =>
              countOf isReleaseDevice calls = 1
              /\ last calls = Some (CallReleaseDevice nodeID volumeID mntDevice)
              /\ dm c' = fst (ReleaseDevice s1 nodeID volumeID mntDevice)
              /\ if alreadyAttached
                 then countOf isAttachVolume calls = 0
                      /\ returned = Ok mntDevice
                 else calls = [CallGetDevice nodeID volumeID;
                               CallAttachVolume mntDevice nodeID volumeID;
                               CallReleaseDevice nodeID volumeID mntDevice]
                      /\ match snd (AttachVolume (ec2 c) mntDevice nodeID
                                                 volumeID) with
                         | Err err =>
                             returned = Err (errAttach volumeID nodeID err)
                             /\ forall q, exists context,
                                  Error q (errAttach volumeID nodeID err)
                                  = context ++ Error q err
                         | Ok _ => returned = Ok mntDevice
                         end
          end)
  /\ (forall (A : Type) (allocator : DeviceAllocator A) (W : Type) (E : EC2 W)
             (o : RangeOrder) (c : Cloud (registryState A) W)
             (log : list Call) (volumeID nodeID : string) inst s1 path w1 err,
        valid_order o ->
        instances (dm c) !! nodeID = Some inst ->
        GetDevice (DeviceManager := registryDeviceManager o)
                  (dm c) nodeID volumeID = (s1, Ok (path, false)) ->
        AttachVolume (ec2 c) path nodeID volumeID = (w1, Err err) ->
        let '(returned, (c', _)) :=
          AttachDisk (DM := registryDeviceManager o) volumeID nodeID (c, log)
        in
        returned = Err (errAttach volumeID nodeID err)
        /\ attachingOf (registry s1) (ec2.InstanceId inst) !! path
           = Some volumeID
        /\ attachingOf (registry (dm c')) (ec2.InstanceId inst) !! path = None
        /\ (attachingOf (registry (dm c)) (ec2.InstanceId inst) !! path
            = None ->
            attachingOf (registry (dm c')) (ec2.InstanceId inst)
            = attachingOf (registry (dm c)) (ec2.InstanceId inst))).
Proof.
  split.
  - intros S R W DM E c log volumeID nodeID. rewrite AttachDisk_run.
    destruct (GetDevice (dm c) nodeID volumeID)
      as [s1 [[mntDevice [|]]|mntErr]].
    + eexists. split; [reflexivity|]. by repeat split.
    + destruct (AttachVolume (ec2 c) mntDevice nodeID volumeID)
        as [w1 [u|err]]; simpl.
      * eexists. split; [reflexivity|]. by repeat split.
      * eexists. split; [reflexivity|]. repeat split.
        intros q. apply errAttach_wraps.
    + eexists. split; [reflexivity|]. by repeat split.
  - intros A allocator W E o c log volumeID nodeID inst s1 path w1 err
           Ho Hinst Hget Hattach.
    rewrite AttachDisk_run, Hget, Hattach.
    destruct (registry_reserve_then_release o (dm c) nodeID volumeID inst s1
                path Ho Hinst Hget) as (Hreserved & Hreleased & Hs1).
    cbn [dm]. split; [done|]. split; [done|]. rewrite Hreleased. split.
    + apply lookup_delete_eq.
    + intros Hfree. rewrite Hs1. by apply delete_insert_id.
Qed.

(** A failed attach on the cloud of the examples: "/dev/xvdf" is reserved
    for the call and free again after it. *)
Lemma AttachDisk_releases_reservation_witness :
  let c := cloudWith [] (Err (errOpaque "RequestLimitExceeded")) in
  let '(returned, (c', log')) :=
    AttachDisk (DM := smallDeviceManager) (E := constantEC2)
               "vol-1" "i-1" (c, [])
  in
  returned = Err (errAttach "vol-1" "i-1" (errOpaque "RequestLimitExceeded"))
  /\ log' = [CallGetDevice "i-1" "vol-1";
             CallAttachVolume "/dev/xvdf" "i-1" "vol-1";
             CallReleaseDevice "i-1" "vol-1" "/dev/xvdf"]
  /\ attachingOf (registry (dm c')) "i-1" !! "/dev/xvdf" = None.
Proof.
  intros c.
  pose proof (proj2 AttachDisk_releases_reservation (list string)
                smallAllocator (result unit) constantEC2 map_to_list c []
                "vol-1" "i-1" (node1 [])
                (fst (GetDevice (DeviceManager := smallDeviceManager)
                        (dm c) "i-1" "vol-1"))
                "/dev/xvdf" (ec2 c) (errOpaque "RequestLimitExceeded")
                valid_order_map_to_list) as Hw.
  change (registryDeviceManager map_to_list) with smallDeviceManager in Hw.
  destruct (AttachDisk (DM := smallDeviceManager) (E := constantEC2)
              "vol-1" "i-1" (c, [])) as [returned [c' log']] eqn:Hrun.
  destruct Hw as (Hreturned & _ & Hgone & _);
    [vm_compute; reflexivity .. |].
  split; [exact Hreturned|]. split; [|exact Hgone].
  apply (f_equal (fun r => snd (snd r))) in Hrun. simpl in Hrun.
  rewrite <- Hrun. vm_compute. reflexivity.
Defined.

(** C8.  Whatever device manager and EC2 client sit behind [Cloud]: when
    the lookup fails, [DetachDisk] returns its error.  When [DetachVolume]
    fails, [DetachDisk] returns the detach error, whose message ends with
    the message of the cause, [ReleaseDevice] is not called and the device
    manager is as the lookup left it.  When [DetachVolume] succeeds,
    [DetachDisk] returns nil, whatever [ReleaseDevice] answers:
    [ReleaseDevice] is not called for an empty device path, and is called
    exactly once, as the last call, for a non-empty one. *)
Theorem DetachDisk_release :
  forall (S R W : Type) (DM : DeviceManager S R) (E : EC2 W)
         (c : Cloud S W) (log : list Call) (volumeID nodeID : string),
    let '(returned, (c', log')) := DetachDisk volumeID nodeID (c, log) in
    exists calls,
      log' = (log ++ calls)%list
      /\ match GetAssignedDevice (dm c) nodeID volumeID with
         | (_, Err err) =>
             returned = Some err
             /\ calls = [CallGetAssignedDevice nodeID volumeID]
         | (s1, Ok mntDevice) =>
             match snd (DetachVolume (ec2 c) nodeID volumeID) with
             | Err err =>
                 returned = Some (errDetach volumeID nodeID err)
                 /\ (forall q, exists context,
                       Error q (errDetach volumeID nodeID err)
                       = context ++ Error q err)
                 /\ countOf isReleaseDevice calls = 0
                 /\ dm c' = s1
             | Ok _ =>
                 returned = None
                 /\ if bool_decide (mntDevice = "")
                    then countOf isReleaseDevice calls = 0 /\ dm c' = s1
                    else countOf isReleaseDevice calls = 1
                         /\ last calls
                            = Some (CallReleaseDevice nodeID volumeID mntDevice)
                         /\ dm c'
                            = fst (ReleaseDevice s1 nodeID volumeID mntDevice)
             end
         end.
Proof.
  intros S R W DM E c log volumeID nodeID. rewrite DetachDisk_run.
  destruct (GetAssignedDevice (dm c) nodeID volumeID)
    as [s1 [mntDevice|err]].
  - destruct (DetachVolume (ec2 c) nodeID volumeID) as [w1 [u|err]]; simpl.
    + case_bool_decide; eexists; (split; [reflexivity|]); by repeat split.
    + eexists. split; [reflexivity|]. repeat split.
      intros q. apply errDetach_wraps.
  - eexists. split; [reflexivity|]. by repeat split.
Qed.

(** Detaching a volume that EC2 reports at "/dev/xvdf" and that has no
    reservation in flight: the device looked up has path "f", its release
    answers "attach not in progress", and [DetachDisk] returns nil. *)
Example detach_ignores_not_in_progress :
  let c := cloudWith [("/dev/xvdf", "vol-X")] (Ok tt) in
  snd (ReleaseDevice (DeviceManager := smallDeviceManager)
         (dm c) "i-1" "vol-X" "f")
  = Some (errNotInProgress "vol-X")
  /\ DetachDisk (DM := smallDeviceManager) (E := constantEC2)
       "vol-X" "i-1" (c, [])
     = (None, (c, [CallGetAssignedDevice "i-1" "vol-X";
                   CallDetachVolume "i-1" "vol-X";
                   CallReleaseDevice "i-1" "vol-X" "f"])).
Proof. vm_compute. split; reflexivity. Qed.

(** C4 on the code.  Whatever device manager and EC2 client sit behind
    [Cloud], and whatever state the cloud is in afterwards: once [GetDevice]
    has produced a device, [AttachDisk] returns that device as soon as
    [AttachVolume] has answered without error, or at once when the device
    was already attached.  It makes no describe call, so it neither waits
    for the attachment to be reported as attached nor compares the reported
    device and instance with the requested ones. *)
Theorem AttachDisk_returns_without_waiting :
  forall (S R W : Type) (DM : DeviceManager S R) (E : EC2 W)
         (c : Cloud S W) (log : list Call) (volumeID nodeID : string)
         s1 mntDevice alreadyAttached,
    GetDevice (dm c) nodeID volumeID = (s1, Ok (mntDevice, alreadyAttached)) ->
    (alreadyAttached = true
     \/ exists w1 u,
          AttachVolume (ec2 c) mntDevice nodeID volumeID = (w1, Ok u)) ->
    let '(returned, (c', log')) := AttachDisk volumeID nodeID (c, log) in
    returned = Ok mntDevice
    /\ exists calls,
         log' = (log ++ calls)%list
         /\ countOf isDescribe calls = 0
         /\ calls
            = if alreadyAttached
              then [CallGetDevice nodeID volumeID;
                    CallReleaseDevice nodeID volumeID mntDevice]
              else [CallGetDevice nodeID volumeID;
                    CallAttachVolume mntDevice nodeID volumeID;
                    CallReleaseDevice nodeID volumeID mntDevice].
Proof.
  intros S R W DM E c log volumeID nodeID s1 mntDevice alreadyAttached
         Hget Hattach.
  rewrite AttachDisk_run, Hget.
  destruct alreadyAttached.
  - split; [done|]. eexists. by repeat split.
  - destruct Hattach as [Hattach|(w1 & u & Hattach)]; [done|].
    rewrite Hattach. split; [done|]. eexists. by repeat split.
Qed.

(** On the cloud of the examples, whose EC2 endpoint accepts the request
    and whose description of the node never shows the volume: [AttachDisk]
    returns "/dev/xvdf" after three calls. *)
Lemma AttachDisk_returns_without_waiting_witness :
  let c := cloudWith [] (Ok tt) in
  let '(returned, (c', log')) :=
    AttachDisk (DM := smallDeviceManager) (E := constantEC2)
               "vol-1" "i-1" (c, [])
  in
  returned = Ok "/dev/xvdf"
  /\ log' = [CallGetDevice "i-1" "vol-1";
             CallAttachVolume "/dev/xvdf" "i-1" "vol-1";
             CallReleaseDevice "i-1" "vol-1" "/dev/xvdf"]
  /\ instances (dm c') = instances (dm c).
Proof.
  intros c.
  pose proof (AttachDisk_returns_without_waiting _ _ _ smallDeviceManager
                constantEC2 c [] "vol-1" "i-1"
                (fst (GetDevice (DeviceManager := smallDeviceManager)
                        (dm c) "i-1" "vol-1"))
                "/dev/xvdf" false) as Hw.
  destruct (AttachDisk (DM := smallDeviceManager) (E := constantEC2)
              "vol-1" "i-1" (c, [])) as [returned [c' log']] eqn:Hrun.
  destruct Hw as (Hreturned & calls & Hlog & _ & Hcalls).
  - vm_compute. reflexivity.
  - right. exists (Ok tt), tt. vm_compute. reflexivity.
  - split; [exact Hreturned|]. split; [by rewrite Hlog, Hcalls|].
    apply (f_equal (fun r => instances (dm (fst (snd r))))) in Hrun.
    simpl in Hrun. rewrite <- Hrun. vm_compute. reflexivity.
Defined.

(** * Further properties of package devicemanager *)

(** ** Device names and keys *)

Lemma HasPrefix_app (prefix s : string) : HasPrefix (prefix ++ s) prefix = true.
Proof.
  induction prefix as [|c prefix IH]; [done|].
  change (HasPrefix (String c (prefix ++ s)) (String c prefix) = true).
  cbn [HasPrefix]. by rewrite Ascii.eqb_refl.
Qed.

Lemma HasPrefix_sliceFrom (s prefix : string) :
  HasPrefix s prefix = true -> s = prefix ++ sliceFrom (String.length prefix) s.
Proof.
  revert s. induction prefix as [|c prefix IH]; intros s; [done|].
  destruct s as [|c' s]; [done|]. cbn [HasPrefix String.length sliceFrom].
  destruct (Ascii.eqb c c') eqn:Hc; [|done].
  apply Ascii.eqb_eq in Hc as ->. intros Hp.
  change (String c' s
          = String c' (prefix ++ sliceFrom (String.length prefix) s)).
  f_equal. by apply IH.
Qed.

Lemma sliceFrom_app (prefix s : string) :
  sliceFrom (String.length prefix) (prefix ++ s) = s.
Proof. induction prefix as [|c prefix IH]; [done | exact IH]. Qed.

(** X1.  [getDevicesInUse] strips a device name to the key it files the
    volume under.  A path [devicePreffix ++ s], as [NewBlockDevice] builds
    it from a suffix, is stripped back to [s]; "/dev/sd" followed by [s] is
    stripped to [s] too, unless [s] itself starts with "/dev/xvd", in which
    case that prefix goes as well; and a name that starts with neither
    prefix is kept whole.  In every case the name is one of the two
    prefixes, both of them, or nothing, followed by the key. *)
Theorem deviceSuffix_strips (s : string) :
  deviceSuffix (devicePreffix ++ s) = s
  /\ (HasPrefix s "/dev/xvd" = false -> deviceSuffix ("/dev/sd" ++ s) = s)
  /\ deviceSuffix ("/dev/sd" ++ "/dev/xvd" ++ s) = s
  /\ (HasPrefix s "/dev/sd" = false -> HasPrefix s "/dev/xvd" = false ->
      deviceSuffix s = s)
  /\ (s = deviceSuffix s
      \/ s = "/dev/sd" ++ deviceSuffix s
      \/ s = "/dev/xvd" ++ deviceSuffix s
      \/ s = "/dev/sd" ++ "/dev/xvd" ++ deviceSuffix s).
Proof.
  split; [reflexivity|]. split.
  { intros Hs. unfold deviceSuffix.
    rewrite (HasPrefix_app "/dev/sd" s).
    change (sliceFrom 7 ("/dev/sd" ++ s)) with s. by rewrite Hs. }
  split; [reflexivity|]. split.
  { intros Hsd Hxvd. unfold deviceSuffix. by rewrite Hsd, Hxvd. }
  unfold deviceSuffix.
  destruct (HasPrefix s "/dev/sd") eqn:Hsd.
  - apply HasPrefix_sliceFrom in Hsd. cbn [String.length] in Hsd.
    destruct (HasPrefix (sliceFrom 7 s) "/dev/xvd") eqn:Hxvd.
    + apply HasPrefix_sliceFrom in Hxvd. cbn [String.length] in Hxvd.
      right. right. right. by rewrite <- Hxvd.
    + right. by left.
  - destruct (HasPrefix s "/dev/xvd") eqn:Hxvd.
    + apply HasPrefix_sliceFrom in Hxvd. right. right. by left.
    + by left.
Qed.

Lemma deviceSuffix_strips_witness :
  deviceSuffix "/dev/sdba" = "ba" /\ deviceSuffix "nvme1n1" = "nvme1n1".
Proof.
  split.
  - apply (proj1 (proj2 (deviceSuffix_strips "ba"))). reflexivity.
  - apply (proj1 (proj2 (proj2 (proj2 (deviceSuffix_strips "nvme1n1")))));
      reflexivity.
Defined.

Lemma foldl_assignMapping_lookup (l : list ec2.InstanceBlockDeviceMapping)
    (base : gmap string string) (k : string) :
  foldl assignMapping base l !! k
  = match last (filter (fun blockDevice =>
                          deviceSuffix (ec2.DeviceName blockDevice) = k) l)
    with
    | Some blockDevice => Some (ec2.VolumeId blockDevice)
    | None => base !! k
    end.
Proof.
  induction l as [|a l IH] using rev_ind; [done|].
  rewrite foldl_app, filter_app. cbn [foldl]. unfold assignMapping at 1.
  destruct (decide (deviceSuffix (ec2.DeviceName a) = k)) as [Ha|Ha].
  - rewrite filter_cons_True by done. rewrite filter_nil, last_snoc.
    by rewrite Ha, lookup_insert_eq.
  - rewrite filter_cons_False by done. rewrite filter_nil, app_nil_r.
    by rewrite lookup_insert_ne.
Qed.

Section more_manager_facts.
Context {A : Type} `{DeviceAllocator A}.
Implicit Types (d : blockDeviceManager A) (o : RangeOrder).
Implicit Types (inst : ec2.Instance).

(** X2.  Whatever order the in-flight map is visited in, the map that
    [getDevicesInUse] returns holds, under each key, the in-flight volume of
    the node at that key if there is one, and otherwise the volume of the
    last block device mapping of the instance whose stripped name is the
    key; keys with neither are absent.  So an in-flight entry hides a
    confirmed mapping with the same key, and of two mappings with the same
    stripped name only the later one is seen. *)
Theorem getDevicesInUse_lookup o d inst nodeID :
  valid_order o ->
  exists deviceMappings,
    getDevicesInUse o d inst nodeID = Ok deviceMappings
    /\ forall k,
         deviceMappings !! k
         = match attachingOf d nodeID !! k with
           | Some volume => Some volume
           | None =>
               ec2.VolumeId
                 <$> last (filter (fun blockDevice =>
                                     deviceSuffix (ec2.DeviceName blockDevice)
                                     = k)
                                  (ec2.BlockDeviceMappings inst))
           end.
Proof.
  intros Ho. eexists. split; [reflexivity|]. intros k.
  rewrite foldl_assign_union by (by apply valid_order_NoDup_fst).
  rewrite valid_order_to_map by done.
  rewrite lookup_union.
  change (foldl _ ∅ (ec2.BlockDeviceMappings inst))
    with (foldl assignMapping ∅ (ec2.BlockDeviceMappings inst)).
  rewrite foldl_assignMapping_lookup, lookup_empty.
  destruct (attachingOf d nodeID !! k) as [v|];
    by destruct (last _) as [b|].
Qed.

End more_manager_facts.

(** In [raceRegistry], "/dev/xvdf" is in flight for "vol-1"; the instance
    reports "vol-A" at "/dev/sdg" and then "vol-B" at "/dev/xvdg". *)
Lemma getDevicesInUse_lookup_witness :
  let inst := node1 [("/dev/sdg", "vol-A"); ("/dev/xvdg", "vol-B")] in
  exists deviceMappings,
    getDevicesInUse reverseOrder raceRegistry inst "i-1" = Ok deviceMappings
    /\ deviceMappings !! "/dev/xvdf" = Some "vol-1"
    /\ deviceMappings !! "g" = Some "vol-B"
    /\ deviceMappings !! "f" = None.
Proof.
  intros inst.
  destruct (getDevicesInUse_lookup reverseOrder raceRegistry inst "i-1"
              valid_order_reverseOrder) as (m & Hcall & Hlookup).
  exists m. split; [exact Hcall|].
  rewrite !Hlookup. vm_compute. repeat split.
Defined.

(** ** Looking up, reserving and releasing *)

Section lookup_reserve_release.
Context {A : Type} `{DeviceAllocator A}.
Implicit Types (d : blockDeviceManager A) (o : RangeOrder).
Implicit Types (inst : ec2.Instance) (device : BlockDevice).

(** X3.  [GetBlockDevice] on an instance never fails.  The device it
    returns is for the instance and the volume asked for and is untainted;
    it is marked as already assigned exactly when its path is not empty; a
    path that is not empty is a key of the merged view that holds the
    volume; the path is empty when no key holds the volume, and it is not
    empty when some key does and the empty key does not. *)
Theorem GetBlockDevice_reports o d inst volumeID :
  valid_order o ->
  exists device,
    GetBlockDevice o d (Some inst) volumeID = Ok device
    /\ Instance device = Some inst
    /\ VolumeID device = volumeID
    /\ isTainted device = false
    /\ (IsAlreadyAssigned device = true <-> Path device ≠ "")
    /\ (Path device ≠ "" ->
        mergedView d inst !! Path device = Some volumeID)
    /\ ((forall k, mergedView d inst !! k ≠ Some volumeID) ->
        Path device = "")
    /\ (mergedView d inst !! "" ≠ Some volumeID ->
        (exists k, mergedView d inst !! k = Some volumeID) ->
        Path device ≠ "").
Proof.
  intros Ho.
  destruct (decide (getPath o (mergedView d inst) volumeID = "")) as [Hp|Hp].
  - exists (newBlockDevice (Some inst) volumeID "" false).
    split; [by apply GetBlockDevice_not_found|]. cbn.
    repeat split; try done.
    intros Hempty [k Hk]. exfalso. apply Hempty.
    rewrite <- Hp at 1. by eapply getPath_present.
  - eexists. split; [by apply GetBlockDevice_found|]. cbn.
    repeat split; try done.
    + intros _. by apply getPath_found.
    + intros Habsent. exfalso. apply Hp. by apply getPath_absent.
Qed.

(** X4.  A reservation can be looked up.  When the volume is in no key of
    the merged view, [GetBlockDevice] answers with the empty path; once
    [NewBlockDevice] has reserved a device for it, [GetBlockDevice], under
    any iteration order, answers with the path of that device, marked as
    already assigned. *)
Theorem GetBlockDevice_after_NewBlockDevice o1 o2 d inst volumeID d1 device1 :
  valid_order o1 -> valid_order o2 ->
  (forall k, mergedView d inst !! k ≠ Some volumeID) ->
  NewBlockDevice o1 d (Some inst) volumeID = (d1, Ok device1) ->
  GetBlockDevice o2 d (Some inst) volumeID
  = Ok (newBlockDevice (Some inst) volumeID "" false)
  /\ Path device1 ≠ ""
  /\ GetBlockDevice o2 d1 (Some inst) volumeID
     = Ok (newBlockDevice (Some inst) volumeID (Path device1) true).
Proof.
  intros Ho1 Ho2 Habsent Hcall.
  split; [apply GetBlockDevice_not_found; [done | by apply getPath_absent]|].
  pose proof (getPath_absent o1 _ _ Habsent Ho1) as Hp.
  destruct (GetNext (allocatorOf d (ec2.InstanceId inst)) (mergedView d inst))
    as [suffix|] eqn:Hnext.
  - rewrite (NewBlockDevice_fresh o1 d inst volumeID suffix) in Hcall by done.
    injection Hcall as <- <-. cbn [Path newBlockDevice].
    split; [apply devicePreffix_nonempty|].
    set (d1 := {| deviceAllocators := _; attaching := _ |}).
    assert (Hp2 : getPath o2 (mergedView d1 inst) volumeID
                  = devicePreffix ++ suffix).
    { unfold d1. rewrite mergedView_reserved.
      apply getPath_unique; [done | apply lookup_insert_eq |].
      intros k'.
      destruct (decide (devicePreffix ++ suffix = k')) as [|Hk']; [done|].
      rewrite lookup_insert_ne by done. intros Hk. by apply Habsent in Hk. }
    rewrite <- Hp2. apply GetBlockDevice_found; [done|].
    rewrite Hp2. apply devicePreffix_nonempty.
  - rewrite (NewBlockDevice_exhausted o1 d inst volumeID) in Hcall by done.
    discriminate Hcall.
Qed.

(** X5.  Reserving and releasing.  [release] on the device that
    [NewBlockDevice] has just reserved for a volume that was in no key of
    the merged view returns nil; it removes the in-flight entry of the
    path, so the in-flight map of the node is the old one without that
    path, and the old one itself when the path had no entry; the in-flight
    maps of the other nodes are as they were.  The allocators are not
    restored: the chosen suffix stays deprioritized. *)
Theorem release_after_NewBlockDevice o d inst volumeID d1 device1 :
  valid_order o ->
  (forall k, mergedView d inst !! k ≠ Some volumeID) ->
  NewBlockDevice o d (Some inst) volumeID = (d1, Ok device1) ->
  exists d2,
    release d1 device1 = (d2, None)
    /\ Release d1 device1 false = d2
    /\ attachingOf d2 (ec2.InstanceId inst)
       = delete (Path device1) (attachingOf d (ec2.InstanceId inst))
    /\ (attachingOf d (ec2.InstanceId inst) !! Path device1 = None ->
        attachingOf d2 (ec2.InstanceId inst)
        = attachingOf d (ec2.InstanceId inst))
    /\ (forall n, n ≠ ec2.InstanceId inst ->
                  attaching d2 !! n = attaching d !! n)
    /\ deviceAllocators d2 = deviceAllocators d1
    /\ exists suffix,
         Path device1 = devicePreffix ++ suffix
         /\ deviceAllocators d2 !! ec2.InstanceId inst
            = Some (Deprioritize (allocatorOf d (ec2.InstanceId inst))
                                 suffix).
Proof.
  intros Ho Habsent Hcall.
  pose proof (getPath_absent o _ _ Habsent Ho) as Hp.
  destruct (GetNext (allocatorOf d (ec2.InstanceId inst)) (mergedView d inst))
    as [suffix|] eqn:Hnext.
  - rewrite (NewBlockDevice_fresh o d inst volumeID suffix) in Hcall by done.
    injection Hcall as <- <-.
    set (device1 := newBlockDevice (Some inst) volumeID
                      (devicePreffix ++ suffix) false).
    set (d1 := {| deviceAllocators := _; attaching := _ |}).
    assert (Hrelease := release_deletes d1 device1 inst eq_refl).
    unfold d1 at 1 in Hrelease. rewrite attachingOf_insert in Hrelease.
    specialize (Hrelease (lookup_insert_eq _ _ _)).
    eexists. split; [exact Hrelease|].
    split; [unfold Release; by rewrite Hrelease|].
    rewrite attachingOf_insert. unfold d1. rewrite attachingOf_insert.
    cbn [Path device1 newBlockDevice deviceAllocators attaching].
    rewrite delete_insert_eq.
    split; [done|]. split; [intros Hfree; by apply delete_id|].
    split; [intros n Hn; by rewrite !lookup_insert_ne|].
    split; [done|]. exists suffix. split; [done|]. apply lookup_insert_eq.
  - rewrite (NewBlockDevice_exhausted o d inst volumeID) in Hcall by done.
    discriminate Hcall.
Qed.

(** X6.  [release] is not idempotent: after a release that returned nil, a
    second release of the same device fails with the attach-not-in-progress
    error and leaves the registry as the first release left it. *)
Theorem release_twice d device d1 :
  release d device = (d1, None) ->
  release d1 device = (d1, Some (errNotInProgress (VolumeID device))).
Proof.
  unfold release at 1.
  destruct (Instance device) as [inst|] eqn:Hi; cbn [getInstanceID];
    [|discriminate].
  destruct (attachingOf d (ec2.InstanceId inst) !! Path device)
    as [v|] eqn:Hv; [|discriminate].
  case_bool_decide; [discriminate|]. intros [= <-].
  apply (release_not_in_progress _ _ inst); [done|].
  rewrite attachingOf_insert. apply lookup_delete_eq.
Qed.



End lookup_reserve_release.

(** Looking "vol-1" up in [raceRegistry], where it is in flight. *)
Lemma GetBlockDevice_reports_witness :
  exists device,
    GetBlockDevice map_to_list raceRegistry (Some (node1 [])) "vol-1"
    = Ok device
    /\ IsAlreadyAssigned device = true
    /\ mergedView raceRegistry (node1 []) !! Path device = Some "vol-1".
Proof.
  destruct (GetBlockDevice_reports map_to_list raceRegistry (node1 [])
              "vol-1" valid_order_map_to_list)
    as (device & Hcall & _ & _ & _ & Hassigned & Hheld & _ & Hfound).
  assert (Hpath : Path device ≠ "").
  { apply Hfound; [vm_compute; discriminate|].
    exists "/dev/xvdf". vm_compute. reflexivity. }
  exists device. split; [exact Hcall|].
  split; [by apply Hassigned | by apply Hheld].
Defined.

(** Reserving "vol-Y" on a new manager, then looking it up. *)
Lemma GetBlockDevice_after_NewBlockDevice_witness :
  let inst := node1 [("/dev/xvdf", "vol-X")] in
  let d := NewBlockDeviceManager (A := list string) in
  let d1 := fst (NewBlockDevice (H := smallAllocator) map_to_list d
                   (Some inst) "vol-Y") in
  GetBlockDevice reverseOrder d (Some inst) "vol-Y"
  = Ok (newBlockDevice (Some inst) "vol-Y" "" false)
  /\ GetBlockDevice reverseOrder d1 (Some inst) "vol-Y"
     = Ok (newBlockDevice (Some inst) "vol-Y" "/dev/xvdg" true).
Proof.
  intros inst d d1.
  assert (Hnew : notValueOf "vol-Y" (mergedView d inst) = true)
    by (vm_compute; reflexivity).
  destruct (GetBlockDevice_after_NewBlockDevice (H := smallAllocator)
              map_to_list reverseOrder d inst "vol-Y" d1
              (newBlockDevice (Some inst) "vol-Y" "/dev/xvdg" false)
              valid_order_map_to_list valid_order_reverseOrder
              (notValueOf_sound _ _ Hnew))
    as (Hbefore & _ & Hafter).
  - vm_compute. reflexivity.
  - split; [exact Hbefore | exact Hafter].
Defined.

(** Reserving "vol-Y" on a new manager, then releasing the device. *)
Lemma release_after_NewBlockDevice_witness :
  let inst := node1 [("/dev/xvdf", "vol-X")] in
  let d := NewBlockDeviceManager (A := list string) in
  let d1 := fst (NewBlockDevice (H := smallAllocator) map_to_list d
                   (Some inst) "vol-Y") in
  let device1 := newBlockDevice (Some inst) "vol-Y" "/dev/xvdg" false in
  exists d2,
    release d1 device1 = (d2, None)
    /\ attachingOf d2 "i-1" = attachingOf d "i-1"
    /\ deviceAllocators d2 !! "i-1" = Some ["f"; "h"; "g"].
Proof.
  intros inst d d1 device1.
  assert (Hnew : notValueOf "vol-Y" (mergedView d inst) = true)
    by (vm_compute; reflexivity).
  destruct (release_after_NewBlockDevice (H := smallAllocator)
              map_to_list d inst "vol-Y" d1 device1
              valid_order_map_to_list (notValueOf_sound _ _ Hnew))
    as (d2 & Hrelease & _ & _ & Hrestored & _ & Hallocators & _).
  - vm_compute. reflexivity.
  - exists d2. split; [exact Hrelease|]. split.
    + apply Hrestored. vm_compute. reflexivity.
    + rewrite Hallocators. vm_compute. reflexivity.
Defined.

(** Releasing the device of "vol-1" in [raceRegistry] twice. *)
Lemma release_twice_witness :
  let device := newBlockDevice (Some (node1 [])) "vol-1" "/dev/xvdf" false in
  let d1 := fst (release raceRegistry device) in
  release raceRegistry device = (d1, None)
  /\ release d1 device = (d1, Some (errNotInProgress "vol-1")).
Proof.
  intros device d1.
  assert (Hfirst : release raceRegistry device = (d1, None))
    by (vm_compute; reflexivity).
  split; [exact Hfirst|].
  exact (release_twice raceRegistry device d1 Hfirst).
Defined.

Section reachable_paths.
Context {A : Type} `{DeviceAllocator A}.
Implicit Types (d : blockDeviceManager A).

(** X8.  In every registry that calls of [NewBlockDevice] and [release]
    produce from a new manager, on whatever instances, volumes and devices,
    each in-flight key is [devicePreffix] followed by a suffix; in
    particular no in-flight key is empty. *)
Theorem reachable_in_flight_paths d nodeID path volumeID :
  reachable d ->
  attachingOf d nodeID !! path = Some volumeID ->
  path ≠ ""
  /\ exists suffix, path = devicePreffix ++ suffix.
Proof.
  intros Hd Hpath.
  pose proof (inFlightKeysPrefixed_attachingOf d nodeID path
                (reachable_inFlightKeysPrefixed d Hd)
                (mk_is_Some _ _ Hpath)) as Hprefixed.
  apply HasPrefix_sliceFrom in Hprefixed.
  split; [by rewrite Hprefixed | by eexists].
Qed.

End reachable_paths.


Lemma reachable_in_flight_paths_witness :
  "/dev/xvdf" ≠ "" /\ exists suffix, "/dev/xvdf" = devicePreffix ++ suffix.
Proof.
  apply (reachable_in_flight_paths (H := smallAllocator) raceRegistry
           "i-1" "/dev/xvdf" "vol-1").
  - apply reachable_wrapAround.
  - vm_compute. reflexivity.
Defined.

(** * Package cloud: disks and instances *)

Lemma wrap64_in_range (z : Z) :
  (- 2 ^ 63 <= z < 2 ^ 63)%Z -> disks.wrap64 z = z.
Proof.
  intros Hz. unfold disks.wrap64.
  rewrite Z.mod_small by lia. lia.
Qed.

(** The two tests that [CreateDisk] makes on the volume returned. *)
Ltac split_answer v :=
  destruct (bool_decide (String.length (ec2api.Volume.VolumeId v) = 0));
  [|destruct (bool_decide (ec2api.Volume.Size v = 0%Z))].

Section disk_facts.
Context {W : Type} `{disks.EC2Disks W}.
Variable BytesToGiB : Z -> Z.
Implicit Types (c : disks.Cloud W) (log : list disks.Request).
Implicit Types (diskOptions : disks.DiskOptions.t).

(** X9.  [CreateDisk] and the volume type.  For a type other than "gp2",
    "sc1", "st1", "io1" and the empty string, it fails with the
    invalid-type error and sends nothing.  For those five it sends exactly
    one request, a [CreateVolume] in the availability zone of the metadata,
    of the size [BytesToGiB] gives, with the type asked for, "gp2" standing
    in for the empty string.  The request carries [Iops] only for "io1",
    and then the product of the size and [IOPSPerGB], as an [int64], raised
    to 100 and lowered to 20000: always within these bounds, and the
    product itself when that lies within them. *)
Theorem CreateDisk_request perIteration o c log volumeName diskOptions :
  let volumeType := disks.DiskOptions.VolumeType diskOptions in
  let capacityGiB := BytesToGiB (disks.DiskOptions.CapacityBytes diskOptions) in
  let product := (capacityGiB * disks.DiskOptions.IOPSPerGB diskOptions)%Z in
  let run := disks.CreateDisk BytesToGiB perIteration o c log volumeName
                              diskOptions in
  (~ disks.accepted volumeType ->
   run = ((disks.ec2 c, log),
          disks.Failed (disks.errInvalidVolumeType volumeType)))
  /\ (disks.accepted volumeType ->
      exists request,
        snd (fst run) = (log ++ [disks.ReqCreateVolume request])%list
        /\ ec2api.CreateVolumeInput.AvailabilityZone request
           = disks.metadataAvailabilityZone c
        /\ ec2api.CreateVolumeInput.Size request = capacityGiB
        /\ ec2api.CreateVolumeInput.VolumeType request
           = (if bool_decide (volumeType = "") then "gp2" else volumeType)
        /\ (volumeType ≠ "io1" ->
            ec2api.CreateVolumeInput.Iops request = None)
        /\ (volumeType = "io1" ->
            exists iops,
              ec2api.CreateVolumeInput.Iops request = Some iops
              /\ (100 <= iops <= 20000)%Z
              /\ iops = Z.min 20000 (Z.max 100 (disks.wrap64 product))
              /\ ((100 <= product <= 20000)%Z -> iops = product))).
Proof.
  intros volumeType capacityGiB product run. subst run.
  unfold disks.CreateDisk. fold volumeType capacityGiB product. cbv zeta.
  unfold disks.accepted, disks.VolumeTypeGP2, disks.VolumeTypeSC1,
    disks.VolumeTypeST1, disks.VolumeTypeIO1, disks.DefaultVolumeType,
    disks.VolumeTypeGP2, disks.MinTotalIOPS, disks.MaxTotalIOPS.
  split.
  - intros Hno.
    rewrite bool_decide_eq_false_2 by (intros [?|[?|?]]; apply Hno; tauto).
    rewrite bool_decide_eq_false_2 by (intros ?; apply Hno; tauto).
    rewrite bool_decide_eq_false_2 by (intros ?; apply Hno; tauto).
    done.
  - intros Hyes.
    destruct (bool_decide (volumeType = "gp2" \/ volumeType = "sc1"
                           \/ volumeType = "st1")) eqn:Hplain.
    + apply bool_decide_eq_true in Hplain.
      assert (Hne : volumeType ≠ "")
        by (intros He; rewrite He in Hplain;
            by destruct Hplain as [?|[?|?]]).
      assert (Hio : volumeType ≠ "io1")
        by (intros He; rewrite He in Hplain;
            by destruct Hplain as [?|[?|?]]).
      destruct (disks.CreateVolume _ _) as [w [v|err]] eqn:Hcall;
        [split_answer v|].
      all: eexists; (split; [reflexivity|]); cbn.
      all: rewrite (bool_decide_eq_false_2 (volumeType = "")) by done.
      all: by repeat split.
    + destruct (bool_decide (volumeType = "io1")) eqn:Hio.
      * apply bool_decide_eq_true in Hio.
        set (iops := if (20000 <? _)%Z then _ else _).
        assert (Hbounds : (100 <= iops <= 20000)%Z)
          by (unfold iops; repeat case_match; lia).
        assert (Hformula : iops
                 = Z.min 20000 (Z.max 100 (disks.wrap64 product)))
          by (unfold iops; repeat case_match; lia).
        assert (Hpos : (0 <? iops)%Z = true) by (apply Z.ltb_lt; lia).
        assert (Hne : volumeType ≠ "") by (by rewrite Hio).
        destruct (disks.CreateVolume _ _) as [w [v|err]] eqn:Hcall;
          [split_answer v|].
        all: eexists; (split; [reflexivity|]); cbn; rewrite Hpos.
        all: rewrite (bool_decide_eq_false_2 (volumeType = "")) by done.
        all: split; [done|]; split; [done|]; split; [done|].
        all: split; [done|]; intros _; exists iops.
        all: split; [done|]; split; [done|]; split; [done|].
        all: intros Hrange; rewrite Hformula, wrap64_in_range; lia.
      * apply bool_decide_eq_false in Hio.
        destruct (bool_decide (volumeType = "")) eqn:Hempty.
        -- destruct (disks.CreateVolume _ _) as [w [v|err]] eqn:Hcall;
             [split_answer v|].
           all: eexists; (split; [reflexivity|]); cbn.
           all: by repeat split.
        -- apply bool_decide_eq_false in Hplain, Hempty.
           exfalso. destruct Hyes as [?|[?|[?|[?|?]]]]; tauto.
Qed.

(** [CreateDisk], way by way: it rejects the type, or it sends one request
    and answers according to what the client returns. *)
Lemma CreateDisk_cases perIteration o c log volumeName diskOptions :
  (~ disks.accepted (disks.DiskOptions.VolumeType diskOptions)
   /\ disks.CreateDisk BytesToGiB perIteration o c log volumeName diskOptions
      = ((disks.ec2 c, log),
         disks.Failed
           (disks.errInvalidVolumeType
              (disks.DiskOptions.VolumeType diskOptions))))
  \/ disks.accepted (disks.DiskOptions.VolumeType diskOptions)
     /\ exists createType iops,
       let request := {|
         ec2api.CreateVolumeInput.AvailabilityZone :=
           disks.metadataAvailabilityZone c;
         ec2api.CreateVolumeInput.Size :=
           BytesToGiB (disks.DiskOptions.CapacityBytes diskOptions);
         ec2api.CreateVolumeInput.VolumeType := createType;
         ec2api.CreateVolumeInput.Iops := iops;
         ec2api.CreateVolumeInput.TagSpecifications :=
           [{| ec2api.TagSpecification.ResourceType := "volume";
               ec2api.TagSpecification.Tags :=
                 disks.rangeTags perIteration o
                   (disks.DiskOptions.Tags diskOptions) |}]
       |} in
       disks.CreateDisk BytesToGiB perIteration o c log volumeName diskOptions
       = ((fst (disks.CreateVolume (disks.ec2 c) request),
           (log ++ [disks.ReqCreateVolume request])%list),
          match snd (disks.CreateVolume (disks.ec2 c) request) with
          | disks.Fault err => disks.Failed (disks.errCreateVolume err)
          | disks.Answer v =>
              if bool_decide (ec2api.Volume.VolumeId v = "")
              then disks.Failed disks.errNoVolumeID
              else if bool_decide (ec2api.Volume.Size v = 0%Z)
                   then disks.Failed disks.errNoDiskSize
                   else disks.Done
                          {| disks.Disk.CapacityGiB := ec2api.Volume.Size v;
                             disks.Disk.VolumeID := ec2api.Volume.VolumeId v |}
          end).
Proof.
  unfold disks.CreateDisk. cbv zeta.
  assert (Hlen : forall v : ec2api.Volume.t,
             bool_decide (String.length (ec2api.Volume.VolumeId v) = 0)
             = bool_decide (ec2api.Volume.VolumeId v = "")).
  { intros v. apply bool_decide_ext.
    by destruct (ec2api.Volume.VolumeId v). }
  unfold disks.accepted, disks.VolumeTypeGP2, disks.VolumeTypeSC1,
    disks.VolumeTypeST1, disks.VolumeTypeIO1.
  destruct (bool_decide (_ \/ _)) eqn:Hplain;
    [|destruct (bool_decide (_ = "io1")) eqn:Hio;
      [|destruct (bool_decide (_ = "")) eqn:Hempty]].
  4: { apply bool_decide_eq_false in Hplain, Hio, Hempty.
       left. split; [tauto|done]. }
  all: right; split;
    [first [apply bool_decide_eq_true in Hplain
           |apply bool_decide_eq_true in Hio
           |apply bool_decide_eq_true in Hempty]; tauto|].
  all: lazymatch goal with
       | |- context [disks.CreateVolume _ ?r] =>
           exists (ec2api.CreateVolumeInput.VolumeType r),
                  (ec2api.CreateVolumeInput.Iops r)
       end.
  all: cbn [ec2api.CreateVolumeInput.VolumeType ec2api.CreateVolumeInput.Iops].
  all: destruct (disks.CreateVolume _ _) as [w [v|err]]; cbn [fst snd];
    [rewrite Hlen|]; [|reflexivity].
  all: destruct (bool_decide (ec2api.Volume.VolumeId v = ""));
    [|destruct (bool_decide (ec2api.Volume.Size v = 0%Z))]; reflexivity.
Qed.

(** X10.  What [CreateDisk] returns and what it leaves behind.  It sends
    at most one request, a [CreateVolume], and never a [DeleteVolume].  A
    disk it returns has the id and the size of the volume the client
    answered with, the id not empty and the size not zero, whatever size
    was asked for.  When it fails because the answer had no id or no size,
    the client had answered the request all the same.  The name passed as
    [volumeName] has no bearing on any of this. *)
Theorem CreateDisk_result perIteration o c log volumeName diskOptions :
  let run := disks.CreateDisk BytesToGiB perIteration o c log volumeName
                              diskOptions in
  (snd (fst run) = log
   \/ exists request,
        snd (fst run) = (log ++ [disks.ReqCreateVolume request])%list)
  /\ (forall disk,
        snd run = disks.Done disk ->
        disks.Disk.VolumeID disk ≠ ""
        /\ disks.Disk.CapacityGiB disk ≠ 0%Z
        /\ exists request tags,
             snd (fst run) = (log ++ [disks.ReqCreateVolume request])%list
             /\ disks.CreateVolume (disks.ec2 c) request
                = (fst (fst run),
                   disks.Answer
                     {| ec2api.Volume.VolumeId := disks.Disk.VolumeID disk;
                        ec2api.Volume.Size := disks.Disk.CapacityGiB disk;
                        ec2api.Volume.Tags := tags |}))
  /\ (snd run = disks.Failed disks.errNoVolumeID
      \/ snd run = disks.Failed disks.errNoDiskSize ->
      exists request v,
        snd (fst run) = (log ++ [disks.ReqCreateVolume request])%list
        /\ snd (disks.CreateVolume (disks.ec2 c) request) = disks.Answer v)
  /\ (forall otherName,
        disks.CreateDisk BytesToGiB perIteration o c log otherName diskOptions
        = run).
Proof.
  intros run. split; [|split; [|split; [|done]]].
  - destruct (CreateDisk_cases perIteration o c log volumeName diskOptions)
      as [[_ Hrun]|(_ & createType & iops & Hrun)]; subst run; rewrite Hrun.
    + by left.
    + right. by eexists.
  - intros disk Hdone.
    destruct (CreateDisk_cases perIteration o c log volumeName diskOptions)
      as [[_ Hrun]|(_ & createType & iops & Hrun)]; subst run;
      rewrite Hrun in Hdone |- *;
      [discriminate|].
    cbv zeta in Hdone |- *. cbn [fst snd] in Hdone |- *.
    destruct (disks.CreateVolume _ _) as [w [[id size tags]|err]] eqn:Hcall;
      cbn [fst snd ec2api.Volume.VolumeId ec2api.Volume.Size] in Hdone |- *;
      [|discriminate].
    case_bool_decide as Hid; [discriminate|].
    case_bool_decide as Hsize; [discriminate|].
    injection Hdone as <-. cbn.
    split; [done|]. split; [done|]. by eexists _, _.
  - intros Hfailed.
    destruct (CreateDisk_cases perIteration o c log volumeName diskOptions)
      as [[_ Hrun]|(_ & createType & iops & Hrun)]; subst run;
      rewrite Hrun in Hfailed |- *.
    + by destruct Hfailed.
    + cbv zeta in Hfailed |- *. cbn [fst snd] in Hfailed |- *.
      destruct (disks.CreateVolume _ _) as [w [v|err]] eqn:Hcall;
        cbn [fst snd] in Hfailed |- *.
      * eexists _, _. split; [reflexivity|by rewrite Hcall].
      * by destruct Hfailed.
Qed.

(** X11.  The tags of the request.  For an accepted volume type the
    request of [CreateDisk] has one tag specification, for the resource
    type "volume", with as many tags as the options have entries.  Where
    every iteration has loop variables of its own, the tags are the
    entries of the options, in the order visited.  Where the loop has one
    pair of variables, all the tags are equal: each is the one entry that
    was visited last. *)
Theorem CreateDisk_tags perIteration o c log volumeName diskOptions :
  valid_order o ->
  disks.accepted (disks.DiskOptions.VolumeType diskOptions) ->
  exists request tags,
    snd (fst (disks.CreateDisk BytesToGiB perIteration o c log volumeName
                               diskOptions))
    = (log ++ [disks.ReqCreateVolume request])%list
    /\ ec2api.CreateVolumeInput.TagSpecifications request
       = [{| ec2api.TagSpecification.ResourceType := "volume";
             ec2api.TagSpecification.Tags := tags |}]
    /\ length tags = size (disks.DiskOptions.Tags diskOptions)
    /\ (perIteration = true ->
        tags ≡ₚ (fun '(key, value) => {| ec2api.Tag.Key := key;
                                         ec2api.Tag.Value := value |})
                  <$> map_to_list (disks.DiskOptions.Tags diskOptions))
    /\ (perIteration = false ->
        forall tag, tag ∈ tags ->
          tags = replicate (size (disks.DiskOptions.Tags diskOptions)) tag
          /\ disks.DiskOptions.Tags diskOptions !! ec2api.Tag.Key tag
             = Some (ec2api.Tag.Value tag)).
Proof.
  intros Ho Hyes.
  destruct (CreateDisk_cases perIteration o c log volumeName diskOptions)
    as [[Hno _]|(_ & createType & iops & Hrun)]; [done|].
  cbv zeta in Hrun. rewrite Hrun. cbn [fst snd].
  eexists _, _. split; [reflexivity|]. split; [reflexivity|].
  set (m := disks.DiskOptions.Tags diskOptions).
  assert (Hlen : length (o m) = size m)
    by (by rewrite (Ho m), length_map_to_list).
  unfold disks.rangeTags. cbv zeta. split; [|split].
  - destruct perIteration; [by rewrite length_fmap|].
    destruct (last (o m)) as [[k v]|] eqn:Hlast.
    + by rewrite length_replicate.
    + apply last_None in Hlast. by rewrite <- Hlen, Hlast.
  - intros ->. by rewrite (Ho m).
  - intros -> tag Htag.
    destruct (last (o m)) as [[k v]|] eqn:Hlast;
      [|by apply elem_of_nil in Htag].
    apply elem_of_replicate in Htag as [-> _]. rewrite Hlen. split; [done|].
    cbn. apply (valid_order_elem_of o); [done|].
    by apply last_Some_elem_of.
Qed.

(** X12.  [DeleteDisk] sends one [DeleteVolume] request for the id.  It
    returns true exactly when it returns no error, and that is exactly
    when the client answered without one.  It returns [ErrVolumeNotFound]
    exactly when the client failed with an AWS error of code
    "InvalidVolume.NotFound"; any other error of the client comes back
    wrapped in the delete error. *)
Theorem DeleteDisk_outcome c log volumeID :
  let run := disks.DeleteDisk c log volumeID in
  let answer := disks.DeleteVolume (disks.ec2 c) volumeID in
  fst run = (fst answer, (log ++ [disks.ReqDeleteVolume volumeID])%list)
  /\ (fst (snd run) = true <-> snd (snd run) = None)
  /\ (snd (snd run) = None <-> exists u, snd answer = disks.Answer u)
  /\ (snd (snd run) = Some disks.ErrVolumeNotFound
      <-> exists message,
            snd answer
            = disks.Fault (disks.AwsErr "InvalidVolume.NotFound" message))
  /\ (forall cause,
        snd (snd run) = Some (disks.errDeleteVolume cause) ->
        snd answer = disks.Fault cause
        /\ forall message,
             cause ≠ disks.AwsErr "InvalidVolume.NotFound" message).
Proof.
  intros run answer. subst run answer. unfold disks.DeleteDisk.
  destruct (disks.DeleteVolume (disks.ec2 c) volumeID)
    as [w [u|[code message|message]]]; cbn.
  - split; [done|]. split; [done|]. split; [split; [by eexists|done]|].
    split; [split; [done|by intros [? ?]]|done].
  - case_bool_decide as Hcode; cbn.
    + subst code. split; [done|]. split; [done|].
      split; [split; [done|by intros [? ?]]|].
      split; [split; [by eexists|done]|done].
    + split; [done|]. split; [done|].
      split; [split; [done|by intros [? ?]]|].
      split; [split; [done|intros [? [= ? ?]]; done]|].
      intros cause [= <-]. split; [done|]. intros m [= ? ?]. done.
  - split; [done|]. split; [done|].
    split; [split; [done|by intros [? ?]]|].
    split; [split; [done|by intros [? ?]]|].
    intros cause [= <-]. split; [done|]. done.
Qed.

(** The volume loop over a run of pages: with fuel for every page it ends
    with the volumes of all the pages, in order, after what it held. *)
Lemma describeVolumesLoop_pages name w nextToken pages w' :
  disks.volumePages name w nextToken pages w' ->
  forall fuel log volumes,
    disks.describeVolumesLoop fuel w log name nextToken volumes
    = if decide (length pages <= fuel)
      then Some ((w', (log ++ disks.volumeRequests name nextToken pages)%list),
                 disks.Done
                   (volumes
                    ++ concat (ec2api.DescribeVolumesOutput.Volumes <$> pages))
                   %list)
      else None.
Proof.
  induction 1 as [w nextToken page w' Hcall Hlast
                 |w nextToken page w1 pages w' Hcall Hmore _ IH];
    intros [|fuel] log volumes; cbn [disks.describeVolumesLoop length];
    try (rewrite decide_False by lia; reflexivity).
  - rewrite Hcall, bool_decide_eq_true_2 by done.
    rewrite decide_True by lia. cbn. by rewrite app_nil_r.
  - rewrite Hcall, bool_decide_eq_false_2 by done. rewrite IH.
    destruct (decide (length pages <= fuel)).
    + rewrite decide_True by lia. cbn. by rewrite <- !app_assoc.
    + rewrite decide_False by lia. reflexivity.
Qed.

Lemma volumePages_length name w nextToken pages w' :
  disks.volumePages name w nextToken pages w' -> 0 < length pages.
Proof. destruct 1; cbn; lia. Qed.

(** X13.  [GetDiskByNameAndSize] over the pages of the client.  Let the
    client answer the requests of the loop, the first with an empty token
    and each later one with the token of the page before, with [pages],
    the last of them the first page whose token is empty.  The loop needs
    one iteration for every page.  Given that many, the function has sent
    exactly these requests, all filtering on the name tag, and decides on
    the volumes of all the pages together: with more than one it fails
    with [ErrMultiDisks], with none it returns no disk and no error, and
    with one it returns that volume's id and size if the size is the
    capacity asked for in GiB and fails with [ErrDiskExistsDiffSize]
    otherwise. *)
Theorem GetDiskByNameAndSize_pages fuel c log name capacityBytes pages w' :
  disks.volumePages name (disks.ec2 c) "" pages w' ->
  let volumes := concat (ec2api.DescribeVolumesOutput.Volumes <$> pages) in
  let run := disks.GetDiskByNameAndSize BytesToGiB fuel c log name
                                        capacityBytes in
  (fuel < length pages -> run = None)
  /\ (length pages <= fuel ->
      exists out,
        run = Some ((w', (log ++ disks.volumeRequests name "" pages)%list),
                    out)
        /\ (1 < length volumes <-> out = disks.Failed disks.ErrMultiDisks)
        /\ (volumes = [] <-> out = disks.Done None)
        /\ (forall volume,
              volumes = [volume] ->
              out = if bool_decide (ec2api.Volume.Size volume
                                    = BytesToGiB capacityBytes)
                    then disks.Done
                           (Some {| disks.Disk.VolumeID :=
                                      ec2api.Volume.VolumeId volume;
                                    disks.Disk.CapacityGiB :=
                                      ec2api.Volume.Size volume |})
                    else disks.Failed disks.ErrDiskExistsDiffSize)).
Proof.
  intros Hpages volumes run. subst run. unfold disks.GetDiskByNameAndSize.
  rewrite (describeVolumesLoop_pages _ _ _ _ _ Hpages). cbn [app].
  fold volumes. split; intros Hfuel.
  - by rewrite decide_False by lia.
  - rewrite decide_True by lia. eexists. split; [reflexivity|].
    destruct volumes as [|volume [|other volumes]]; cbn [length].
    + rewrite bool_decide_eq_false_2 by lia.
      split; [split; [lia|done]|]. split; [done|]. by intros ? [=].
    + rewrite bool_decide_eq_false_2 by lia.
      split; [split; [lia|by case_bool_decide]|].
      split; [split; [done|by case_bool_decide]|].
      intros ? [= <-]. repeat case_bool_decide; done.
    + rewrite bool_decide_eq_true_2 by lia.
      split; [split; [done|lia]|]. split; [done|]. by intros ? [=].
Qed.

Lemma foldl_reservations (results : list ec2.Instance) reservations :
  foldl (fun results reservation =>
           (results ++ ec2api.Reservation.Instances reservation)%list)
        results reservations
  = (results ++ concat (ec2api.Reservation.Instances <$> reservations))%list.
Proof.
  revert results.
  induction reservations as [|reservation reservations IH]; intros results;
    cbn.
  - by rewrite app_nil_r.
  - by rewrite IH, <- app_assoc.
Qed.

(** The instance loop over a run of pages. *)
Lemma describeInstancesLoop_pages nodeID w nextToken pages w' :
  disks.instancePages nodeID w nextToken pages w' ->
  forall fuel log results,
    disks.describeInstancesLoop fuel w log nodeID nextToken results
    = if decide (length pages <= fuel)
      then Some ((w',
                  (log ++ disks.instanceRequests nodeID nextToken pages)%list),
                 disks.Done
                   (results ++ concat (disks.instancesOf <$> pages))%list)
      else None.
Proof.
  induction 1 as [w nextToken page w' Hcall Hlast
                 |w nextToken page w1 pages w' Hcall Hmore _ IH];
    intros [|fuel] log results; cbn [disks.describeInstancesLoop length];
    try (rewrite decide_False by lia; reflexivity).
  - rewrite Hcall, bool_decide_eq_true_2 by done.
    rewrite decide_True by lia. rewrite foldl_reservations. cbn.
    by rewrite app_nil_r.
  - rewrite Hcall, bool_decide_eq_false_2 by done. rewrite IH.
    rewrite foldl_reservations.
    destruct (decide (length pages <= fuel)).
    + rewrite decide_True by lia. cbn. by rewrite <- !app_assoc.
    + rewrite decide_False by lia. reflexivity.
Qed.

(** X14.  [getInstance] over the pages of the client.  Let the client
    answer the requests of the loop with [pages], as above.  With an
    iteration for every page the function has sent exactly these
    requests, each naming the one node, and it returns an instance
    exactly when the reservations of all the pages hold one instance
    between them, and then that instance.  Otherwise it fails with the
    error that reports the number of instances found, none or several. *)
Theorem getInstance_pages fuel c log nodeID pages w' :
  disks.instancePages nodeID (disks.ec2 c) "" pages w' ->
  let instances := concat (disks.instancesOf <$> pages) in
  let run := disks.getInstance fuel c log nodeID in
  (fuel < length pages -> run = None)
  /\ (length pages <= fuel ->
      exists out,
        run = Some ((w', (log ++ disks.instanceRequests nodeID "" pages)%list),
                    out)
        /\ (forall instance,
              out = disks.Done instance <-> instances = [instance])
        /\ (length instances ≠ 1 ->
            out = disks.Failed
                    (disks.errInstanceCount nodeID (length instances)))).
Proof.
  intros Hpages instances run. subst run. unfold disks.getInstance.
  rewrite (describeInstancesLoop_pages _ _ _ _ _ Hpages). cbn [app].
  fold instances. split; intros Hfuel.
  - by rewrite decide_False by lia.
  - rewrite decide_True by lia. eexists. split; [reflexivity|].
    destruct instances as [|instance [|other instances]]; cbn [length].
    + split; [by split|done].
    + split; [|lia]. intros ?. split; by intros [= <-].
    + split; [by split|done].
Qed.

(** ** The earlier provider *)

Lemma rangeVolumeTags_Exists tagKey tagVal volumeId tags
    (volumes : list string) :
  awsebs.rangeVolumeTags tagKey tagVal volumeId tags volumes
  = if decide (Exists (fun tag => ec2api.Tag.Key tag = tagKey
                                  /\ ec2api.Tag.Value tag = tagVal) tags)
    then (volumes ++ [volumeId])%list
    else volumes.
Proof.
  induction tags as [|tag tags IH]; cbn [awsebs.rangeVolumeTags].
  - rewrite decide_False; [done|]. by intros ?%Exists_nil.
  - destruct (bool_decide _ && bool_decide _) eqn:Htag.
    + apply andb_true_iff in Htag as [?%bool_decide_eq_true
                                      ?%bool_decide_eq_true].
      rewrite decide_True; [done|]. by apply Exists_cons_hd.
    + rewrite IH. apply andb_false_iff in Htag.
      destruct (decide (Exists _ tags)) as [Hlater|Hlater].
      * rewrite decide_True; [done|]. by apply Exists_cons_tl.
      * rewrite decide_False; [done|].
        intros [[? ?]|?]%Exists_cons; [|done].
        destruct Htag as [?%bool_decide_eq_false|?%bool_decide_eq_false];
          done.
Qed.

Lemma rangeVolumeTags_tagged tagKey tagVal volume (volumes : list string) :
  awsebs.rangeVolumeTags tagKey tagVal (ec2api.Volume.VolumeId volume)
                         (ec2api.Volume.Tags volume) volumes
  = if decide (awsebs.tagged tagKey tagVal volume)
    then (volumes ++ [ec2api.Volume.VolumeId volume])%list
    else volumes.
Proof.
  rewrite rangeVolumeTags_Exists. unfold awsebs.tagged.
  by repeat destruct (decide _).
Qed.

Lemma foldl_rangeVolumeTags tagKey tagVal found
    (volumes : list ec2api.Volume.t) :
  foldl (fun found volume =>
           awsebs.rangeVolumeTags tagKey tagVal (ec2api.Volume.VolumeId volume)
                                  (ec2api.Volume.Tags volume) found)
        found volumes
  = (found ++ (ec2api.Volume.VolumeId
                 <$> filter (awsebs.tagged tagKey tagVal) volumes))%list.
Proof.
  revert found.
  induction volumes as [|volume volumes IH]; intros found; cbn [foldl].
  - rewrite filter_nil. cbn. by rewrite app_nil_r.
  - rewrite IH, rangeVolumeTags_tagged, filter_cons.
    destruct (decide (awsebs.tagged tagKey tagVal volume)); [|done].
    rewrite fmap_cons. by rewrite <- app_assoc.
Qed.

Lemma describeLoop_pages tagKey tagVal w nextToken pages w' :
  awsebs.pagesFrom w nextToken pages w' ->
  forall fuel log found,
    awsebs.describeLoop fuel w log tagKey tagVal nextToken found
    = if decide (length pages <= fuel)
      then Some ((w', (log ++ awsebs.requestsFrom nextToken pages)%list),
                 disks.Done
                   (found
                    ++ (ec2api.Volume.VolumeId
                          <$> filter (awsebs.tagged tagKey tagVal)
                                (concat (ec2api.DescribeVolumesOutput.Volumes
                                           <$> pages))))%list)
      else None.
Proof.
  induction 1 as [w nextToken page w' Hcall Hlast
                 |w nextToken page w1 pages w' Hcall Hmore _ IH];
    intros [|fuel] log found; cbn [awsebs.describeLoop length];
    try (rewrite decide_False by lia; reflexivity).
  - rewrite Hcall, bool_decide_eq_true_2 by done.
    rewrite decide_True by lia. rewrite foldl_rangeVolumeTags. cbn.
    by rewrite app_nil_r.
  - rewrite Hcall, bool_decide_eq_false_2 by done. rewrite IH.
    rewrite foldl_rangeVolumeTags.
    destruct (decide (length pages <= fuel)).
    + rewrite decide_True by lia. cbn.
      by rewrite filter_app, fmap_app, <- !app_assoc.
    + rewrite decide_False by lia. reflexivity.
Qed.

(** X15.  [GetVolumesByTagName] of the earlier provider, over the pages
    of the client.  Let the client answer the requests of the loop, which
    carry no filter, with [pages], the last of them the first page with
    an empty token.  With an iteration for every page the function
    returns, in the order of the pages, the ids of the volumes that carry
    a tag with the key and the value: one id for every such volume,
    however many of its tags match.  With fewer iterations it has not
    returned. *)
Theorem GetVolumesByTagName_pages fuel (c : awsebs.awsEBS W) log tagKey tagVal
    pages w' :
  awsebs.pagesFrom (awsebs.ec2 c) "" pages w' ->
  let volumes := concat (ec2api.DescribeVolumesOutput.Volumes <$> pages) in
  let run := awsebs.GetVolumesByTagName fuel c log tagKey tagVal in
  (fuel < length pages -> run = None)
  /\ (length pages <= fuel ->
      run = Some ((w', (log ++ awsebs.requestsFrom "" pages)%list),
                  disks.Done
                    (ec2api.Volume.VolumeId
                       <$> filter (awsebs.tagged tagKey tagVal) volumes))).
Proof.
  intros Hpages volumes run. subst run. unfold awsebs.GetVolumesByTagName.
  rewrite (describeLoop_pages _ _ _ _ _ _ Hpages). cbn [app].
  split; intros Hfuel.
  - by rewrite decide_False by lia.
  - by rewrite decide_True by lia.
Qed.

End disk_facts.

Lemma CreateDisk_request_witness :
  exists request,
    snd (fst (disks.CreateDisk (H := disks.scriptedEC2) exampleBytesToGiB
                true reverseOrder (diskCloud (scriptWith [] [])) []
                "a" twoTagOptions))
    = [disks.ReqCreateVolume request]
    /\ ec2api.CreateVolumeInput.VolumeType request = "io1"
    /\ ec2api.CreateVolumeInput.Iops request = Some 200%Z.
Proof.
  destruct (proj2 (CreateDisk_request (H := disks.scriptedEC2)
                     exampleBytesToGiB true reverseOrder
                     (diskCloud (scriptWith [] [])) [] "a" twoTagOptions))
    as (request & Hlog & _ & _ & Htype & _ & Hio).
  { unfold disks.accepted. cbn. tauto. }
  exists request. split; [exact Hlog|]. split; [exact Htype|].
  destruct (Hio eq_refl) as (iops & Hiops & _ & _ & Hproduct).
  rewrite Hiops, Hproduct; [reflexivity|].
  vm_compute. split; discriminate.
Defined.

Lemma CreateDisk_result_witness :
  let disk := {| disks.Disk.VolumeID := "vol-a";
                 disks.Disk.CapacityGiB := 4 |} in
  snd (disks.CreateDisk (H := disks.scriptedEC2) exampleBytesToGiB
         true reverseOrder (diskCloud (scriptWith [] [])) []
         "a" twoTagOptions)
  = disks.Done disk
  /\ disks.Disk.VolumeID disk ≠ ""
  /\ disks.Disk.CapacityGiB disk ≠ 0%Z.
Proof.
  intros disk.
  assert (Hrun : snd (disks.CreateDisk (H := disks.scriptedEC2)
                        exampleBytesToGiB true reverseOrder
                        (diskCloud (scriptWith [] [])) [] "a" twoTagOptions)
                 = disks.Done disk)
    by (vm_compute; reflexivity).
  split; [exact Hrun|].
  destruct (proj1 (proj2 (CreateDisk_result (H := disks.scriptedEC2)
                            exampleBytesToGiB true reverseOrder
                            (diskCloud (scriptWith [] [])) [] "a"
                            twoTagOptions))
              disk Hrun) as (Hid & Hsize & _).
  split; [exact Hid | exact Hsize].
Defined.

Lemma DeleteDisk_outcome_witness :
  disks.DeleteDisk (H := disks.scriptedEC2) (diskCloud scriptVolumeGone) []
                   "vol-a"
  = ((scriptVolumeGone, [disks.ReqDeleteVolume "vol-a"]),
     (false, Some disks.ErrVolumeNotFound)).
Proof.
  destruct (DeleteDisk_outcome (H := disks.scriptedEC2)
              (diskCloud scriptVolumeGone) [] "vol-a")
    as (Hsent & Hok & _ & Hgone & _).
  destruct (disks.DeleteDisk (H := disks.scriptedEC2)
              (diskCloud scriptVolumeGone) [] "vol-a")
    as [st [ok err]].
  cbn [fst snd] in Hsent, Hok, Hgone.
  assert (Herr : err = Some disks.ErrVolumeNotFound)
    by (apply Hgone; eexists; reflexivity).
  rewrite Hsent, Herr. do 2 f_equal.
  destruct ok; [|reflexivity].
  rewrite Herr in Hok. discriminate (proj1 Hok eq_refl).
Defined.

Lemma CreateDisk_tags_witness :
  exists request tags,
    snd (fst (disks.CreateDisk (H := disks.scriptedEC2) exampleBytesToGiB
                false reverseOrder (diskCloud (scriptWith [] [])) []
                "a" twoTagOptions))
    = [disks.ReqCreateVolume request]
    /\ ec2api.CreateVolumeInput.TagSpecifications request
       = [{| ec2api.TagSpecification.ResourceType := "volume";
             ec2api.TagSpecification.Tags := tags |}]
    /\ length tags = 2
    /\ forall tag, tag ∈ tags -> tags = [tag; tag].
Proof.
  destruct (CreateDisk_tags (H := disks.scriptedEC2) exampleBytesToGiB
              false reverseOrder (diskCloud (scriptWith [] [])) []
              "a" twoTagOptions valid_order_reverseOrder)
    as (request & tags & Hlog & Hspec & Hlength & _ & Hsame).
  { unfold disks.accepted. cbn. tauto. }
  exists request, tags. split; [exact Hlog|]. split; [exact Hspec|].
  split; [exact Hlength|].
  intros tag Htag. exact (proj1 (Hsame eq_refl tag Htag)).
Defined.

Lemma volumePagesAB_run :
  disks.volumePages (H := disks.scriptedEC2) "a"
    (scriptWith volumePagesAB instancePagesOne) "" volumePagesAB
    (scriptWith [] instancePagesOne).
Proof.
  eapply disks.volumePages_more; [reflexivity|done|].
  eapply disks.volumePages_last; [reflexivity|done].
Qed.

Lemma GetDiskByNameAndSize_pages_witness :
  let c := diskCloud (scriptWith volumePagesAB instancePagesOne) in
  disks.GetDiskByNameAndSize (H := disks.scriptedEC2) exampleBytesToGiB
    1 c [] "a" (4 * 2 ^ 30) = None
  /\ exists out,
       disks.GetDiskByNameAndSize (H := disks.scriptedEC2) exampleBytesToGiB
         2 c [] "a" (4 * 2 ^ 30)
       = Some ((scriptWith [] instancePagesOne,
                disks.volumeRequests "a" "" volumePagesAB), out)
       /\ out = disks.Done (Some {| disks.Disk.VolumeID := "vol-a";
                                    disks.Disk.CapacityGiB := 4 |}).
Proof.
  intros c. split.
  - apply (proj1 (GetDiskByNameAndSize_pages (H := disks.scriptedEC2)
                    exampleBytesToGiB 1 c [] "a" (4 * 2 ^ 30) volumePagesAB
                    (scriptWith [] instancePagesOne) volumePagesAB_run)).
    cbn. lia.
  - destruct (proj2 (GetDiskByNameAndSize_pages (H := disks.scriptedEC2)
                       exampleBytesToGiB 2 c [] "a" (4 * 2 ^ 30) volumePagesAB
                       (scriptWith [] instancePagesOne) volumePagesAB_run))
      as (out & Hrun & _ & _ & Hone); [cbn; lia|].
    exists out. split; [exact Hrun|].
    rewrite (Hone volumeA eq_refl). reflexivity.
Defined.

Lemma instancePagesOne_run :
  disks.instancePages (H := disks.scriptedEC2) "i-1"
    (scriptWith volumePagesAB instancePagesOne) "" instancePagesOne
    (scriptWith volumePagesAB []).
Proof.
  eapply disks.instancePages_more; [reflexivity|done|].
  eapply disks.instancePages_last; [reflexivity|done].
Qed.

Lemma getInstance_pages_witness :
  let c := diskCloud (scriptWith volumePagesAB instancePagesOne) in
  disks.getInstance (H := disks.scriptedEC2) 1 c [] "i-1" = None
  /\ exists out,
       disks.getInstance (H := disks.scriptedEC2) 2 c [] "i-1"
       = Some ((scriptWith volumePagesAB [],
                disks.instanceRequests "i-1" "" instancePagesOne), out)
       /\ out = disks.Done (node1 []).
Proof.
  intros c. split.
  - apply (proj1 (getInstance_pages (H := disks.scriptedEC2) 1 c [] "i-1"
                    instancePagesOne (scriptWith volumePagesAB [])
                    instancePagesOne_run)).
    cbn. lia.
  - destruct (proj2 (getInstance_pages (H := disks.scriptedEC2) 2 c [] "i-1"
                       instancePagesOne (scriptWith volumePagesAB [])
                       instancePagesOne_run))
      as (out & Hrun & Hone & _); [cbn; lia|].
    exists out. split; [exact Hrun|]. by apply Hone.
Defined.

Lemma volumePagesBoth_run :
  awsebs.pagesFrom (H := disks.scriptedEC2)
    (scriptWith volumePagesBoth []) "" volumePagesBoth (scriptWith [] []).
Proof.
  eapply awsebs.pagesFrom_more; [reflexivity|done|].
  eapply awsebs.pagesFrom_last; [reflexivity|done].
Qed.

Lemma GetVolumesByTagName_pages_witness :
  let c := {| awsebs.ec2 := scriptWith volumePagesBoth [] |} in
  awsebs.GetVolumesByTagName (H := disks.scriptedEC2) 1 c [] "team" "storage"
  = None
  /\ awsebs.GetVolumesByTagName (H := disks.scriptedEC2) 2 c [] "team"
       "storage"
     = Some ((scriptWith [] [], awsebs.requestsFrom "" volumePagesBoth),
             disks.Done ["vol-a"; "vol-a"]).
Proof.
  intros c. split.
  - apply (proj1 (GetVolumesByTagName_pages (H := disks.scriptedEC2) 1 c []
                    "team" "storage" volumePagesBoth (scriptWith [] [])
                    volumePagesBoth_run)).
    cbn. lia.
  - rewrite (proj2 (GetVolumesByTagName_pages (H := disks.scriptedEC2) 2 c []
                      "team" "storage" volumePagesBoth (scriptWith [] [])
                      volumePagesBoth_run)) by (cbn; lia).
    vm_compute. reflexivity.
Defined.
